(** * hotels-icons: the icon import script [main.py]

    A shallow embedding of the script that matches the remote icon
    catalog against the locally downloaded SVG files, normalises the tag
    lists and inserts the resulting rows into the store in chunks.

    Python values are modelled as follows.
    - A [str] is the list of its Unicode code points ([N]).
    - The [set] used for deduplication is a [gset].
    - A catalog entry (a JSON object whose fields are strings) is a
      [gmap] from field names to strings; an absent key stands for a
      missing or [null] field, which [dict.get] does not tell apart
      once the default is applied and the value is tested for truth.
    - The row handed to the store is a record with the six keys of the
      dict literal built in [main].
    - Standard output, the call of [requests.get] and the store's
      insert calls are recorded, in order, in a trace of events.
    - The file system ([os.path.exists]) is a predicate on paths that
      does not change during the run; [uuid.uuid4] is the sequence of
      the integers it returns, one per call.
    - The script catches no exception. What it calls may raise:
      [create_client], the request for the catalog, [len] of a [null]
      catalog and each [execute()] of an insert either return or raise,
      and an exception ends the run where it is raised. *)

From stdpp Require Import base decidable option list gmap strings pretty.

(** ** Strings *)

Module Str.

(** A Python [str]: a sequence of code points. *)
Abbreviation t := (list N).

(** The code points of a literal (one per character of the literal). *)
Definition lit (s : string) : t :=
  Ascii.N_of_ascii <$> String.list_ascii_of_string s.

(** [bool(s)]: a string is true when it is not empty. *)
Definition truthy (s : t) : bool :=
  match s with [] => false | _ :: _ => true end.

(** [c.isspace()] for one code point: the characters [str.strip()]
    removes when called with no argument. *)
Definition isspace (c : N) : bool :=
  ((9 <=? c) && (c <=? 13) || (28 <=? c) && (c <=? 32)
   || (c =? 0x85) || (c =? 0xA0) || (c =? 0x1680)
   || (0x2000 <=? c) && (c <=? 0x200A)
   || (c =? 0x2028) || (c =? 0x2029) || (c =? 0x202F)
   || (c =? 0x205F) || (c =? 0x3000))%N.

(** [s.lstrip()] *)
Fixpoint lstrip (s : t) : t :=
  match s with
  | [] => []
  | c :: s' => if isspace c then lstrip s' else s
  end.

(** [s.rstrip()] *)
Definition rstrip (s : t) : t := reverse (lstrip (reverse s)).

(** [s.strip()] *)
Definition strip (s : t) : t := rstrip (lstrip s).

(** [s.split(sep)] for a one-character separator: every occurrence of
    the separator ends a piece, empty pieces are kept, and the result
    always has at least one piece. *)
Fixpoint split (sep : N) (s : t) : list t :=
  match s with
  | [] => [[]]
  | c :: s' =>
      if (c =? sep)%N then [] :: split sep s'
      else match split sep s' with
           | [] => [[c]]
           | piece :: pieces => (c :: piece) :: pieces
           end
  end.

(** [str(n)] for a natural number. *)
Definition of_nat (n : nat) : t := lit (pretty n).

End Str.

Abbreviation str := Str.t.

(** ** [parse_tags] *)

(** One iteration of the deduplication loop: [seen] is the set of tags
    met so far, [unique_tags] the list being built. *)
Definition dedup_step (st : gset str * list str) (t : str)
  : gset str * list str :=
  let '(seen, unique_tags) := st in
  if decide (t ∈ seen) then (seen, unique_tags)
  else ({[ t ]} ∪ seen, unique_tags ++ [t]).

(** The value of [tags] when the deduplication loop starts: the trimmed
    non-empty pieces of [raw_tags], then the trimmed category. *)
Definition candidate_tags (raw_tags : str) (category : option str)
  : list str :=
  let tags :=
    if Str.truthy raw_tags
    then Str.strip <$>
           filter (λ t, Str.truthy (Str.strip t))
                  (Str.split 44%N raw_tags)
    else [] in
  match category with
  | Some c => if Str.truthy c then tags ++ [Str.strip c] else tags
  | None => tags
  end.

Definition parse_tags (raw_tags : str) (category : option str) : list str :=
  let tags := candidate_tags raw_tags category in
  (foldl dedup_step (∅, []) tags).2.

(** ** Identifiers *)

Module Uuid.

(** The lower-case hexadecimal digit of a value below 16. *)
Definition hex_digit (d : N) : N :=
  if (d <? 10)%N then (48 + d)%N else (87 + d)%N.

(** The [k] low hexadecimal digits of [n], most significant first:
    ['%032x' % n] for [k = 32] and [n < 2^128]. *)
Fixpoint hex (k : nat) (n : N) : str :=
  match k with
  | O => []
  | S k' => hex k' (n / 16)%N ++ [hex_digit (n mod 16)%N]
  end.

(** [str(u)] for a [uuid.UUID] whose 128-bit integer is [n]: the 32
    hexadecimal digits in groups of 8, 4, 4, 4 and 12. *)
Definition to_str (n : N) : str :=
  let x := hex 32 n in
  take 8 x ++ [45%N] ++ take 4 (drop 8 x) ++ [45%N]
    ++ take 4 (drop 12 x) ++ [45%N] ++ take 4 (drop 16 x) ++ [45%N]
    ++ drop 20 x.

End Uuid.

(** ** Rows, responses and events *)

(** The embedding vector of a row; this script never builds one. *)
Definition vector : Type := list Z.

Module Row.
(** The dict literal built in [main], key by key. *)
Record t : Type := mk {
  id : str;
  icon_name : str;
  tags : list str;
  keyword : str;
  file : str;
  embedding : option vector
}.
End Row.

Abbreviation row := Row.t.

(** A Python object as far as this script observes it: its truth value
    ([bool(o)]) and its text ([str(o)]). *)
Record pyobj : Type := { truth : bool; text : str }.

Definition PyNone : pyobj := {| truth := false; text := Str.lit "None" |}.

(** The object returned by [execute()]: [error] is [None] when the
    object has no attribute of that name. *)
Record response : Type := { error : option pyobj }.

(** [getattr(res, "error", None)] *)
Definition getattr_error (res : response) : pyobj :=
  default PyNone (error res).

(** An exception that ends the run. The script raises [RuntimeError]
    itself; the others are raised by what it calls and are caught
    nowhere: [requests] (the request, its status, its body), the
    interpreter ([len(None)]) and the [supabase] library (creating the
    client, executing an insert). *)
Inductive exn : Type :=
| RuntimeError (msg : str)
| RequestException
| TypeError (msg : str)
| ClientException (what : pyobj).

(** What one call gives: it raises, or it returns a value. *)
Abbreviation result A := (exn + A)%type.

(** [HttpGet] is the call [requests.get(url, timeout=...)]; [Insert] is
    the call [supabase.table(table).insert(chunk).execute()] with what
    it gave. *)
Inductive event : Type :=
| Print (line : str)
| HttpGet (url : str) (timeout : nat)
| Insert (table : str) (chunk : list row) (res : result response).

(** The store client: [insert_execute s table chunk] is the call
    [supabase.table(table).insert(chunk).execute()] made in state [s].
    The call returns a response object or raises, and leaves the store
    in a next state either way. *)
Record Client : Type := {
  store : Type;
  state : store;
  insert_execute : store → str → list row → result response * store
}.

Definition with_state (c : Client) (s : store c) : Client :=
  {| store := store c; state := s; insert_execute := insert_execute c |}.

(** ** Configuration *)

Definition HUGEICONS_API_URL : str := Str.lit "https://hugeicons.com/api/icons".
Definition ICON_STYLE_SUFFIX : str := Str.lit "stroke-rounded".
Definition OUTPUT_DIR : str := Str.lit "icons".
Definition SUPABASE_TABLE : str := Str.lit "icon_vectors".

(** ** Printed lines *)

Definition warning_sign : str := [0x26A0; 0xFE0F]%N.
Definition check_mark : str := [0x2705]%N.
Definition em_dash : str := [0x2014]%N.

Definition msg_fetching : str :=
  Str.lit "Fetching icon list from " ++ HUGEICONS_API_URL ++ Str.lit " ...".

Definition msg_fetched (n : nat) : str :=
  Str.lit "Fetched " ++ Str.of_nat n ++ Str.lit " icons from API.".

Definition msg_no_rows : str := Str.lit "No rows to insert into Supabase.".

Definition msg_inserting (n chunk_no : nat) : str :=
  Str.lit "Inserting " ++ Str.of_nat n
    ++ Str.lit " rows into Supabase (chunk " ++ Str.of_nat chunk_no
    ++ Str.lit ")...".

Definition msg_supabase_error (e : pyobj) : str :=
  Str.lit "  " ++ warning_sign ++ Str.lit " Supabase error:"
    ++ Str.lit " " ++ text e.

Definition msg_inserted : str :=
  Str.lit "  " ++ check_mark ++ Str.lit " Inserted.".

Definition msg_file_not_found (name local_path : str) : str :=
  Str.lit "  " ++ warning_sign ++ Str.lit " File not found for icon '"
    ++ name ++ Str.lit "': " ++ local_path ++ Str.lit " " ++ em_dash
    ++ Str.lit " skipping.".

Definition msg_prepared (n : nat) : str :=
  Str.lit "Prepared " ++ Str.of_nat n
    ++ Str.lit " rows to insert into Supabase.".

Definition msg_done : str := Str.lit "Done.".

(** ** [insert_icons_to_supabase] *)

(** [range(start, stop, step)] for [start <= stop] and a positive step. *)
Definition range (start stop step : nat) : list nat :=
  (λ k, start + k * step) <$> seq 0 ((stop - start + step - 1) / step).

(** [l[i:j]] for indices [0 <= i <= j]. *)
Definition slice {A} (l : list A) (i j : nat) : list A :=
  take (j - i) (drop i l).

(** The body of the chunk loop, for the offset [i]. The state of the
    loop is the client, the exception that has ended the loop, if any,
    and the trace so far. The call of [execute()] is in no [try]: when
    it raises, nothing more is printed and no later iteration runs. *)
Definition insert_chunk (chunk_size : nat) (rows : list row)
    (st : Client * option exn * list event) (i : nat)
  : Client * option exn * list event :=
  let '(supabase, raised, out) := st in
  match raised with
  | Some _ => st
  | None =>
      let chunk := slice rows i (i + chunk_size) in
      let out :=
        out ++ [Print (msg_inserting (length chunk) (i / chunk_size + 1))] in
      let '(res, s') :=
        insert_execute supabase (state supabase) SUPABASE_TABLE chunk in
      let out := out ++ [Insert SUPABASE_TABLE chunk res] in
      match res with
      | inl e => (with_state supabase s', Some e, out)
      | inr res =>
          let out :=
            if truth (getattr_error res)
            then out ++ [Print (msg_supabase_error (getattr_error res))]
            else out ++ [Print msg_inserted] in
          (with_state supabase s', None, out)
      end
  end.

(** [insert_icons_to_supabase]: the client after the calls, the
    exception that ended the function, if any, and the trace. *)
Definition insert_icons_to_supabase (supabase : Client) (rows : list row)
  : Client * option exn * list event :=
  match rows with
  | [] => (supabase, None, [Print msg_no_rows])
  | _ :: _ =>
      let chunk_size := 100 in
      foldl (insert_chunk chunk_size rows) (supabase, None, [])
            (range 0 (length rows) chunk_size)
  end.

(** ** [main] *)

(** A catalog entry: the JSON object of one icon. *)
Abbreviation entry := (gmap string str).

(** [os.path.join(a, b)] on a POSIX system. *)
Definition path_join (a b : str) : str :=
  match b with
  | 47%N :: _ => b
  | _ =>
      match last a with
      | None | Some 47%N => a ++ b
      | Some _ => a ++ [47%N] ++ b
      end
  end.

(** The f-string [f"{name}-{ICON_STYLE_SUFFIX}.svg"]. *)
Definition file_name_of (name : str) : str :=
  name ++ Str.lit "-" ++ ICON_STYLE_SUFFIX ++ Str.lit ".svg".

(** What the loop over the catalog carries from one entry to the next:
    the rows built so far, the lines printed so far and the number of
    identifiers drawn from [uuid.uuid4] so far. *)
Record loop_state : Type := {
  rows_to_insert : list row;
  printed : list str;
  drawn : nat
}.

Definition loop_init : loop_state :=
  {| rows_to_insert := []; printed := []; drawn := 0 |}.

(** The body of [for icon in icons]. [path_exists] is [os.path.exists];
    [uuid4 k] is the integer of the [k]-th identifier that
    [uuid.uuid4()] returns in this run. *)
Definition loop_body (path_exists : str → bool) (uuid4 : nat → N)
    (st : loop_state) (icon : entry) : loop_state :=
  let name := icon !! "name" in
  let raw_tags := default (Str.lit "") (icon !! "tags") in
  let category := icon !! "category" in
  match name with
  | None => st
  | Some name =>
      if negb (Str.truthy name) then st
      else
        let file_name := file_name_of name in
        let local_path := path_join OUTPUT_DIR file_name in
        if negb (path_exists local_path) then
          {| rows_to_insert := rows_to_insert st;
             printed := printed st ++ [msg_file_not_found name local_path];
             drawn := drawn st |}
        else
          let tags_list := parse_tags raw_tags category in
          let row :=
            {| Row.id := Uuid.to_str (uuid4 (drawn st));
               Row.icon_name := name;
               Row.tags := tags_list;
               Row.keyword := Str.lit "";
               Row.file := file_name;
               Row.embedding := None |} in
          {| rows_to_insert := rows_to_insert st ++ [row];
             printed := printed st;
             drawn := S (drawn st) |}
  end.

Definition build_rows (path_exists : str → bool) (uuid4 : nat → N)
    (icons : list entry) : loop_state :=
  foldl (loop_body path_exists uuid4) loop_init icons.

(** The value under the key ["icons"] of the JSON object of the
    catalog: the key is absent, the value is [null], or it is a list of
    entries. *)
Inductive icons_field : Type :=
| IconsAbsent
| IconsNull
| IconsList (icons : list entry).

(** What [requests.get], [raise_for_status] and [json] give together:
    one of them raises, or the body is a JSON object. *)
Inductive http_result : Type :=
| RequestFailed
| JsonObject (icons : icons_field).

(** What the script reads from outside. [create_client] is the function
    of the [supabase] library: it returns a client or raises. *)
Record World : Type := {
  SUPABASE_URL : option str;
  SUPABASE_KEY : option str;
  create_client : str → str → result Client;
  path_exists : str → bool;
  http_get : str → nat → http_result;
  uuid4 : nat → N
}.

Definition get_supabase_client (w : World) : result Client :=
  match SUPABASE_URL w, SUPABASE_KEY w with
  | Some url, Some key =>
      if negb (Str.truthy url) || negb (Str.truthy key)
      then inl (RuntimeError (Str.lit
             "SUPABASE_URL and SUPABASE_KEY must be set in environment variables"))
      else create_client w url key
  | _, _ =>
      inl (RuntimeError (Str.lit
             "SUPABASE_URL and SUPABASE_KEY must be set in environment variables"))
  end.

Definition ensure_output_dir (w : World) : exn + unit :=
  if negb (path_exists w OUTPUT_DIR)
  then inl (RuntimeError
              (Str.lit "Output directory '" ++ OUTPUT_DIR
                 ++ Str.lit "' does not exist. "
                 ++ Str.lit "Make sure all SVGs are already downloaded there."))
  else inr tt.

(** [fetch_icon_list]: the events it produces and what it returns.
    [data.get("icons", [])] is [None] when the value is [null], and
    [len(None)] raises [TypeError] before anything more is printed. *)
Definition fetch_icon_list (w : World) : list event * result (list entry) :=
  let out := [Print msg_fetching; HttpGet HUGEICONS_API_URL 30] in
  match http_get w HUGEICONS_API_URL 30 with
  | RequestFailed => (out, inl RequestException)
  | JsonObject IconsNull =>
      (out, inl (TypeError (Str.lit "object of type 'NoneType' has no len()")))
  | JsonObject IconsAbsent =>
      (out ++ [Print (msg_fetched (length (@nil entry)))], inr [])
  | JsonObject (IconsList icons) =>
      (out ++ [Print (msg_fetched (length icons))], inr icons)
  end.

(** [main]: the trace of the run and the exception that ended it, if
    any. *)
Definition main (w : World) : list event * option exn :=
  match get_supabase_client w with
  | inl e => ([], Some e)
  | inr supabase =>
      match ensure_output_dir w with
      | inl e => ([], Some e)
      | inr _ =>
          match fetch_icon_list w with
          | (out, inl e) => (out, Some e)
          | (out, inr icons) =>
              let st := build_rows (path_exists w) (uuid4 w) icons in
              let out := out ++ (Print <$> printed st) in
              let out :=
                out ++ [Print (msg_prepared (length (rows_to_insert st)))] in
              let '(_, raised, out') :=
                insert_icons_to_supabase supabase (rows_to_insert st) in
              match raised with
              | Some e => (out ++ out', Some e)
              | None => (out ++ out' ++ [Print msg_done], None)
              end
          end
      end
  end.

(** ** Reference definitions *)

(** Deduplication as the specification words it: an element is kept
    exactly when no earlier element of the list is equal to it, and the
    kept elements stay in the order of the list. *)
Definition first_occurrences (l : list str) : list str :=
  omap (λ i, x ← l !! i; if decide (x ∈ take i l) then None else Some x)
       (seq 0 (length l)).

(** The chunks of a list as the specification words them: consecutive
    blocks of [n] elements, the last one holding what is left. The fuel
    bounds the number of blocks. *)
Fixpoint chunks_fuel {A} (fuel n : nat) (l : list A) : list (list A) :=
  match fuel, l with
  | O, _ | _, [] => []
  | S fuel', _ :: _ => take n l :: chunks_fuel fuel' n (drop n l)
  end.

Definition chunks {A} (n : nat) (l : list A) : list (list A) :=
  chunks_fuel (length l) n l.

(** The chunks submitted to the store in a trace, each with what its
    insert call gave (a response, or an exception). *)
Definition transcript (out : list event)
  : list (list row * result response) :=
  omap (λ e, match e with
             | Insert _ chunk res => Some (chunk, res)
             | _ => None
             end) out.

Definition submitted (out : list event) : list (list row) :=
  fst <$> transcript out.

(** The lines printed in a trace. *)
Definition lines (out : list event) : list str :=
  omap (λ e, match e with Print line => Some line | _ => None end) out.

(** The insert calls made when the chunks [cs] are inserted one after
    the other, starting from the state of [supabase], each with what it
    gave: the calls stop after the first one that raises. *)
Fixpoint calls (supabase : Client) (cs : list (list row))
  : list (list row * result response) :=
  match cs with
  | [] => []
  | c :: cs' =>
      let '(res, s') :=
        insert_execute supabase (state supabase) SUPABASE_TABLE c in
      (c, res) :: match res with
                  | inl _ => []
                  | inr _ => calls (with_state supabase s') cs'
                  end
  end.

(** The first exception among the calls of a transcript. *)
Fixpoint first_raise (crs : list (list row * result response))
  : option exn :=
  match crs with
  | [] => None
  | (_, inl e) :: _ => Some e
  | (_, inr _) :: crs' => first_raise crs'
  end.

(** The calls of a transcript that returned a response. *)
Definition returned (cr : list row * result response) : Prop :=
  ∃ res, cr.2 = inr res.

(** The line printed after an insert, given its response. *)
Definition report (res : response) : str :=
  if truth (getattr_error res)
  then msg_supabase_error (getattr_error res)
  else msg_inserted.

(** The events of the chunk numbered [k] (from 0): the line that
    announces it, the call, and the report of the response when the
    call returned one. *)
Definition chunk_events (k : nat) (cr : list row * result response)
  : list event :=
  [Print (msg_inserting (length cr.1) (k + 1));
   Insert SUPABASE_TABLE cr.1 cr.2]
    ++ match cr.2 with
       | inl _ => []
       | inr res => [Print (report res)]
       end.

(** The events of consecutive chunks, the first one numbered [k]. *)
Fixpoint events_from (k : nat) (crs : list (list row * result response))
  : list event :=
  match crs with
  | [] => []
  | cr :: crs' => chunk_events k cr ++ events_from (S k) crs'
  end.

(** An entry without a usable name: the key is absent (or [null]) or
    the name is the empty string. *)
Definition name_missing (icon : entry) : Prop :=
  icon !! "name" = None ∨ icon !! "name" = Some [].

(** The path [main] checks for an icon of the given name. *)
Definition local_path_of (name : str) : str :=
  path_join OUTPUT_DIR (file_name_of name).

(** The fixed fields of a row built from an entry of [icons]. *)
Definition row_well_formed (icons : list entry) (r : row) : Prop :=
  Row.keyword r = Str.lit ""
  ∧ Row.embedding r = None
  ∧ Row.file r
    = Row.icon_name r ++ Str.lit "-" ++ ICON_STYLE_SUFFIX ++ Str.lit ".svg"
  ∧ ∃ icon, icon ∈ icons ∧ icon !! "name" = Some (Row.icon_name r).

(** ** Sample inputs *)

Module Fixture.

(** An identifier source that counts up. *)
Definition counting_ids (k : nat) : N := N.of_nat k.

Definition arrow_up : entry :=
  {[ "name" := Str.lit "arrow-up";
     "tags" := Str.lit "direction, arrow";
     "category" := Str.lit "navigation" ]}.

Definition missing_icon : entry :=
  {[ "name" := Str.lit "missing-icon";
     "tags" := Str.lit "";
     "category" := Str.lit "" ]}.

Definition nameless : entry := {[ "tags" := Str.lit "misc" ]}.

(** A directory [icons] that holds one file. *)
Definition local_files (p : str) : bool :=
  bool_decide
    (p ∈ [Str.lit "icons"; Str.lit "icons/arrow-up-stroke-rounded.svg"]).

Definition ok : response := {| error := None |}.

Definition timeout : pyobj :=
  {| truth := true; text := Str.lit "timeout" |}.

Definition failed : response := {| error := Some timeout |}.

(** A store that accepts every insert; its state counts the calls. *)
Definition always_ok : Client :=
  {| store := nat; state := 0;
     insert_execute := λ n _ _, (inr ok, S n) |}.

(** A store whose second call reports an error in its response. *)
Definition fails_second : Client :=
  {| store := nat; state := 0;
     insert_execute :=
       λ n _ _, (inr (if n =? 1 then failed else ok), S n) |}.

(** The exception of a store that is out of reach. *)
Definition unreachable : exn :=
  ClientException {| truth := true; text := Str.lit "connection refused" |}.

(** A store whose first call reports an error in its response and whose
    second call raises. *)
Definition fails_first_raises_second : Client :=
  {| store := nat; state := 0;
     insert_execute :=
       λ n _ _, (match n with
                 | 0 => inr failed
                 | 1 => inl unreachable
                 | _ => inr ok
                 end, S n) |}.

Definition sample_row (k : nat) : row :=
  {| Row.id := Uuid.to_str (N.of_nat k);
     Row.icon_name := Str.lit "icon-" ++ Str.of_nat k;
     Row.tags := [];
     Row.keyword := Str.lit "";
     Row.file := file_name_of (Str.lit "icon-" ++ Str.of_nat k);
     Row.embedding := None |}.

Definition sample_rows (n : nat) : list row := sample_row <$> seq 0 n.

Definition world (catalog : list entry) : World :=
  {| SUPABASE_URL := Some (Str.lit "https://example.supabase.co");
     SUPABASE_KEY := Some (Str.lit "service-key");
     create_client := λ _ _, inr always_ok;
     path_exists := local_files;
     http_get := λ _ _, JsonObject (IconsList catalog);
     uuid4 := counting_ids |}.

End Fixture.

(** ** More reference definitions and sample inputs *)

(** The name under which an entry gets a row, if it gets one: the name
    is there, not empty, and its file exists. *)
Definition accepted_name (path_exists : str → bool) (icon : entry)
  : option str :=
  name ← icon !! "name";
  if Str.truthy name && path_exists (local_path_of name)
  then Some name else None.

(** The line printed for an entry, if one is: the entry has a name and
    its file does not exist. *)
Definition missing_line (path_exists : str → bool) (icon : entry)
  : option str :=
  name ← icon !! "name";
  if Str.truthy name && negb (path_exists (local_path_of name))
  then Some (msg_file_not_found name (local_path_of name)) else None.

(** The calls of [requests.get] in a trace, each with its URL and its
    timeout. (The insert calls of the store client are [Insert] events:
    see [transcript].) *)
Definition catalog_fetches (out : list event) : list (str * nat) :=
  omap (λ e, match e with
             | HttpGet url timeout => Some (url, timeout)
             | _ => None
             end) out.

(** The entries [fetch_icon_list] returns for a value of ["icons"] that
    is not [null]. *)
Definition icons_of (f : icons_field) : list entry :=
  match f with
  | IconsList icons => icons
  | IconsAbsent | IconsNull => []
  end.

(** The client of the run is [supabase]: the credentials are set and
    [create_client] returned it for them. *)
Definition client_created (w : World) (supabase : Client) : Prop :=
  ∃ url key,
    SUPABASE_URL w = Some url ∧ url ≠ []
    ∧ SUPABASE_KEY w = Some key ∧ key ≠ []
    ∧ create_client w url key = inr supabase.

(** The message of the [TypeError] of [len(None)]. *)
Definition msg_len_none : str :=
  Str.lit "object of type 'NoneType' has no len()".

(** The message of the error raised when a credential is missing. *)
Definition msg_credentials : str :=
  Str.lit "SUPABASE_URL and SUPABASE_KEY must be set in environment variables".

(** The message of the error raised when the directory is missing. *)
Definition msg_no_output_dir : str :=
  Str.lit "Output directory '" ++ OUTPUT_DIR ++ Str.lit "' does not exist. "
    ++ Str.lit "Make sure all SVGs are already downloaded there.".

(** The credentials are set: both variables are there and not empty. *)
Definition credentials_set (w : World) : Prop :=
  ∃ url key,
    SUPABASE_URL w = Some url ∧ url ≠ []
    ∧ SUPABASE_KEY w = Some key ∧ key ≠ [].

Module Scenario.

(** No key in the environment. *)
Definition no_key : World :=
  {| SUPABASE_URL := Some (Str.lit "https://example.supabase.co");
     SUPABASE_KEY := None;
     create_client := λ _ _, inr Fixture.always_ok;
     path_exists := Fixture.local_files;
     http_get := λ _ _, JsonObject (IconsList [Fixture.arrow_up]);
     uuid4 := Fixture.counting_ids |}.

(** Credentials, but no directory [icons]. *)
Definition no_directory : World :=
  {| SUPABASE_URL := Some (Str.lit "https://example.supabase.co");
     SUPABASE_KEY := Some (Str.lit "service-key");
     create_client := λ _ _, inr Fixture.always_ok;
     path_exists := λ _, false;
     http_get := λ _ _, JsonObject (IconsList [Fixture.arrow_up]);
     uuid4 := Fixture.counting_ids |}.

(** The request fails. *)
Definition offline : World :=
  {| SUPABASE_URL := Some (Str.lit "https://example.supabase.co");
     SUPABASE_KEY := Some (Str.lit "service-key");
     create_client := λ _ _, inr Fixture.always_ok;
     path_exists := Fixture.local_files;
     http_get := λ _ _, RequestFailed;
     uuid4 := Fixture.counting_ids |}.

(** The answer is a JSON object without the key [icons]. *)
Definition no_icons_key : World :=
  {| SUPABASE_URL := Some (Str.lit "https://example.supabase.co");
     SUPABASE_KEY := Some (Str.lit "service-key");
     create_client := λ _ _, inr Fixture.always_ok;
     path_exists := Fixture.local_files;
     http_get := λ _ _, JsonObject IconsAbsent;
     uuid4 := Fixture.counting_ids |}.

(** The exception [create_client] raises for a URL it does not accept. *)
Definition invalid_url : exn :=
  ClientException {| truth := true; text := Str.lit "Invalid URL" |}.

(** A URL that is not one, and no directory [icons] either. *)
Definition bad_url : World :=
  {| SUPABASE_URL := Some (Str.lit "not-a-url");
     SUPABASE_KEY := Some (Str.lit "service-key");
     create_client := λ _ _, inl invalid_url;
     path_exists := λ _, false;
     http_get := λ _ _, JsonObject (IconsList [Fixture.arrow_up]);
     uuid4 := Fixture.counting_ids |}.

(** The answer is the JSON object [{"icons": null}]. *)
Definition null_icons : World :=
  {| SUPABASE_URL := Some (Str.lit "https://example.supabase.co");
     SUPABASE_KEY := Some (Str.lit "service-key");
     create_client := λ _ _, inr Fixture.always_ok;
     path_exists := Fixture.local_files;
     http_get := λ _ _, JsonObject IconsNull;
     uuid4 := Fixture.counting_ids |}.

(** One catalog entry with its file, and a store whose calls raise. *)
Definition store_down : World :=
  {| SUPABASE_URL := Some (Str.lit "https://example.supabase.co");
     SUPABASE_KEY := Some (Str.lit "service-key");
     create_client :=
       λ _ _, inr {| store := unit; state := tt;
                     insert_execute :=
                       λ _ _ _, (inl Fixture.unreachable, tt) |};
     path_exists := Fixture.local_files;
     http_get := λ _ _, JsonObject (IconsList [Fixture.arrow_up]);
     uuid4 := Fixture.counting_ids |}.

(** An entry whose category holds a comma and spaces around it. *)
Definition two_words : entry :=
  {[ "name" := Str.lit "arrow-up";
     "tags" := Str.lit " up ,arrow,, up";
     "category" := Str.lit " arrows, signs " ]}.

End Scenario.

(** * Properties *)

(** ** Tag normalisation *)

Section Dedup.

Implicit Types (l p : list str) (x : str).

Lemma first_occurrences_snoc l x :
  first_occurrences (l ++ [x])
  = first_occurrences l ++ (if decide (x ∈ l) then [] else [x]).
Proof.
  unfold first_occurrences.
  rewrite length_app, Nat.add_1_r, seq_S, omap_app. simpl.
  f_equal.
  - apply list_omap_ext, Forall2_same_length_lookup_2; [done|].
    intros i a b Ha Hb. assert (a = b) as <- by congruence.
    apply lookup_seq in Ha as [-> Hlt]. simpl.
    rewrite lookup_app_l, take_app_le by lia. done.
  - rewrite lookup_app_r, Nat.sub_diag by lia. simpl.
    rewrite take_app_length. by case_decide.
Qed.

Lemma dedup_step_snoc p x :
  dedup_step (list_to_set p, first_occurrences p) x
  = (list_to_set (p ++ [x]), first_occurrences (p ++ [x])).
Proof.
  unfold dedup_step. rewrite first_occurrences_snoc.
  case_decide as Hin; rewrite elem_of_list_to_set in Hin.
  - rewrite decide_True, app_nil_r by done. f_equal.
    apply set_eq. intros y. rewrite !elem_of_list_to_set, elem_of_app.
    rewrite list_elem_of_singleton. naive_solver.
  - rewrite decide_False by done. f_equal.
    apply set_eq. intros y.
    rewrite elem_of_union, !elem_of_list_to_set, elem_of_app.
    rewrite elem_of_singleton, list_elem_of_singleton. naive_solver.
Qed.

Lemma dedup_loop l p :
  foldl dedup_step (list_to_set p, first_occurrences p) l
  = (list_to_set (p ++ l), first_occurrences (p ++ l)).
Proof.
  revert p. induction l as [|x l IH]; intros p.
  - by rewrite app_nil_r.
  - cbn [foldl]. rewrite dedup_step_snoc, IH, <- app_assoc. done.
Qed.

Lemma first_occurrences_elem l x : x ∈ first_occurrences l ↔ x ∈ l.
Proof.
  induction l as [|y l IH] using rev_ind.
  - done.
  - rewrite first_occurrences_snoc, !elem_of_app, IH.
    case_decide; rewrite ?list_elem_of_singleton, ?elem_of_nil;
      naive_solver.
Qed.

Lemma first_occurrences_NoDup l : NoDup (first_occurrences l).
Proof.
  induction l as [|y l IH] using rev_ind.
  - constructor.
  - rewrite first_occurrences_snoc. case_decide as Hin.
    + by rewrite app_nil_r.
    + apply NoDup_app. split_and!; [done| |apply NoDup_singleton].
      intros z Hz Hy. rewrite first_occurrences_elem in Hz.
      apply list_elem_of_singleton in Hy. subst z. exact (Hin Hz).
Qed.

End Dedup.

Lemma parse_tags_first_occurrences raw_tags category :
  parse_tags raw_tags category
  = first_occurrences (candidate_tags raw_tags category).
Proof.
  unfold parse_tags.
  pose proof (dedup_loop (candidate_tags raw_tags category) []) as H.
  simpl in H. change (first_occurrences []) with (@nil str) in H.
  by rewrite H.
Qed.

Lemma parse_tags_NoDup raw_tags category :
  NoDup (parse_tags raw_tags category).
Proof. rewrite parse_tags_first_occurrences. apply first_occurrences_NoDup. Qed.

(** ** Chunked insertion *)

Section Chunks.

Context {A : Type}.
Implicit Types (l : list A) (c k : nat).

Lemma chunk_count_step c n :
  0 < c → 0 < n → (n + c - 1) / c = S ((n - c + c - 1) / c).
Proof.
  intros Hc Hn. destruct (decide (c ≤ n)) as [Hle|Hgt].
  - replace (n + c - 1) with ((n - c + c - 1) + 1 * c) by lia.
    rewrite Nat.div_add by lia. lia.
  - replace (n - c) with 0 by lia.
    rewrite (Nat.div_small (0 + c - 1)) by lia.
    symmetry. apply (Nat.div_unique _ _ _ (n - 1)); lia.
Qed.

Lemma chunks_fuel_seq fuel c l :
  0 < c → length l ≤ fuel →
  chunks_fuel fuel c l
  = (λ k, take c (drop (k * c) l)) <$> seq 0 ((length l + c - 1) / c).
Proof.
  intros Hc. revert l. induction fuel as [|fuel IH]; intros l Hl.
  - destruct l; [|simpl in Hl; lia]. simpl.
    by rewrite Nat.div_small by lia.
  - destruct l as [|x l].
    + simpl. by rewrite Nat.div_small by lia.
    + cbn [chunks_fuel].
      rewrite (chunk_count_step c (length (x :: l))) by (simpl; lia).
      cbn [seq fmap list_fmap]. rewrite Nat.mul_0_l, drop_0. f_equal.
      rewrite IH by (rewrite length_drop; simpl in *; lia).
      rewrite length_drop, <- fmap_S_seq, <- list_fmap_compose.
      apply list_fmap_ext. intros _ k _. simpl.
      by rewrite drop_drop.
Qed.

Lemma chunks_seq c l :
  0 < c →
  chunks c l
  = (λ k, take c (drop (k * c) l)) <$> seq 0 ((length l + c - 1) / c).
Proof. intros Hc. by apply chunks_fuel_seq. Qed.

Lemma chunks_range c l :
  0 < c →
  (λ i, slice l i (i + c)) <$> range 0 (length l) c = chunks c l.
Proof.
  intros Hc. rewrite chunks_seq by done. unfold range.
  rewrite <- list_fmap_compose, Nat.sub_0_r.
  apply list_fmap_ext. intros _ k _. simpl. unfold slice.
  by replace (k * c + c - k * c) with c by lia.
Qed.

Lemma chunks_length c l :
  0 < c → length (chunks c l) = (length l + c - 1) / c.
Proof. intros Hc. by rewrite chunks_seq, length_fmap, length_seq. Qed.

Lemma chunks_lookup c l k :
  0 < c → k < (length l + c - 1) / c →
  chunks c l !! k = Some (take c (drop (k * c) l)).
Proof.
  intros Hc Hk. rewrite chunks_seq, list_lookup_fmap by done.
  by rewrite lookup_seq_lt.
Qed.

Lemma concat_take_drop c l m :
  concat ((λ k, take c (drop (k * c) l)) <$> seq 0 m) = take (m * c) l.
Proof.
  induction m as [|m IH]; [done|].
  rewrite seq_S, fmap_app, concat_app, IH. simpl. rewrite app_nil_r.
  replace (c + m * c) with (m * c + c) by lia.
  apply take_take_drop.
Qed.

Lemma chunks_concat c l : 0 < c → concat (chunks c l) = l.
Proof.
  intros Hc. rewrite chunks_seq, concat_take_drop by done.
  apply take_ge.
  pose proof (Nat.div_mod_eq (length l + c - 1) c).
  pose proof (Nat.mod_upper_bound (length l + c - 1) c). nia.
Qed.

End Chunks.

Section Publisher.

Implicit Types (supabase : Client) (rows : list row) (out : list event).
Implicit Types (crs : list (list row * result response)).
Implicit Types (cs : list (list row)).

(** Once a call has raised, the remaining iterations do nothing. *)
Lemma insert_loop_raised c rows e supabase out (l : list nat) :
  foldl (insert_chunk c rows) (supabase, Some e, out) l
  = (supabase, Some e, out).
Proof. induction l as [|i l IH]; [done|exact IH]. Qed.

Lemma insert_loop_events c rows m a supabase out :
  0 < c →
  let cs := (λ k, take c (drop (k * c) rows)) <$> seq a m in
  let st := foldl (insert_chunk c rows) (supabase, None, out)
                  ((λ k, 0 + k * c) <$> seq a m) in
  st.2 = out ++ events_from a (calls supabase cs)
  ∧ st.1.2 = first_raise (calls supabase cs).
Proof.
  intros Hc. cbv zeta. revert a supabase out.
  induction m as [|m IH]; intros a supabase out.
  - simpl. by rewrite app_nil_r.
  - cbn [seq fmap list_fmap foldl calls].
    unfold insert_chunk at 2 4. unfold slice.
    replace (0 + a * c + c - (0 + a * c)) with c by lia.
    replace ((0 + a * c) / c) with a
      by (rewrite Nat.add_0_l, Nat.div_mul; lia).
    simpl (0 + a * c).
    destruct (insert_execute _ _ _ _) as [[e|res] s'].
    + rewrite insert_loop_raised. cbn. by rewrite <- !app_assoc.
    + assert (Hev : ∀ crs,
                events_from a ((take c (drop (a * c) rows), inr res) :: crs)
                = [Print (msg_inserting
                            (length (take c (drop (a * c) rows))) (a + 1));
                   Insert SUPABASE_TABLE (take c (drop (a * c) rows))
                          (inr res);
                   Print (report res)] ++ events_from (S a) crs) by done.
      rewrite Hev. cbn [first_raise]. unfold report.
      destruct (truth (getattr_error res));
        rewrite (proj1 (IH _ _ _)), (proj2 (IH _ _ _)), <- !app_assoc; done.
Qed.

Lemma insert_trace_events supabase rows :
  rows ≠ [] →
  (insert_icons_to_supabase supabase rows).2
  = events_from 0 (calls supabase (chunks 100 rows)).
Proof.
  intros Hne. unfold insert_icons_to_supabase.
  destruct rows as [|r rows']; [done|].
  set (rows := r :: rows'). unfold range. rewrite Nat.sub_0_r.
  destruct (insert_loop_events 100 rows ((length rows + 100 - 1) / 100)
              0 supabase []) as [Hout _]; [lia|].
  rewrite Hout, <- chunks_seq by lia. done.
Qed.

Lemma insert_raised supabase rows :
  (insert_icons_to_supabase supabase rows).1.2
  = first_raise (calls supabase (chunks 100 rows)).
Proof.
  unfold insert_icons_to_supabase.
  destruct rows as [|r rows']; [done|].
  set (rows := r :: rows'). unfold range. rewrite Nat.sub_0_r.
  destruct (insert_loop_events 100 rows ((length rows + 100 - 1) / 100)
              0 supabase []) as [_ Hraised]; [lia|].
  rewrite Hraised, <- chunks_seq by lia. done.
Qed.

Lemma transcript_events_from k crs : transcript (events_from k crs) = crs.
Proof.
  revert k. induction crs as [|[c [e|res]] crs IH]; intros k; [done| |].
  - cbn. f_equal. apply IH.
  - cbn. f_equal. apply IH.
Qed.

Lemma events_from_app a crs1 crs2 :
  events_from a (crs1 ++ crs2)
  = events_from a crs1 ++ events_from (a + length crs1) crs2.
Proof.
  revert a. induction crs1 as [|cr crs1 IH]; intros a.
  - simpl. by rewrite Nat.add_0_r.
  - cbn [app events_from length]. rewrite IH, <- app_assoc.
    by replace (S a + length crs1) with (a + S (length crs1)) by lia.
Qed.

Lemma events_from_returned_length a crs :
  Forall returned crs → length (events_from a crs) = 3 * length crs.
Proof.
  intros H. revert a. induction H as [|[c r] crs [res Hr] _ IH]; intros a.
  - done.
  - simpl in Hr. subst r. cbn [events_from chunk_events app length fst snd].
    rewrite IH. lia.
Qed.

Lemma events_from_lookup a crs k cr :
  Forall returned (take k crs) → crs !! k = Some cr →
  events_from a crs !! (3 * k)
    = Some (Print (msg_inserting (length cr.1) (a + k + 1)))
  ∧ events_from a crs !! (3 * k + 1) = Some (Insert SUPABASE_TABLE cr.1 cr.2)
  ∧ (∀ res, cr.2 = inr res →
       events_from a crs !! (3 * k + 2) = Some (Print (report res))).
Proof.
  intros Hret Hk.
  assert (Hk' : k < length crs) by (by apply lookup_lt_Some in Hk).
  assert (HE : events_from a crs
               = events_from a (take k crs)
                   ++ events_from (a + k) (drop k crs)).
  { rewrite <- (take_drop k crs) at 1.
    rewrite events_from_app, length_take_le by lia. done. }
  assert (Hlen : length (events_from a (take k crs)) = 3 * k).
  { rewrite events_from_returned_length by done.
    rewrite length_take_le; lia. }
  rewrite HE, !lookup_app_r by lia. rewrite Hlen.
  replace (3 * k - 3 * k) with 0 by lia.
  replace (3 * k + 1 - 3 * k) with 1 by lia.
  replace (3 * k + 2 - 3 * k) with 2 by lia.
  rewrite (drop_S _ _ _ Hk).
  cbn [events_from chunk_events app fst snd]. split_and!; [done|done|].
  intros res Hres. by rewrite Hres.
Qed.

Lemma calls_length supabase cs : length (calls supabase cs) ≤ length cs.
Proof.
  revert supabase. induction cs as [|c cs IH]; intros supabase; [done|].
  cbn [calls]. destruct (insert_execute _ _ _ _) as [[e|res] s'].
  - simpl. lia.
  - cbn [length]. specialize (IH (with_state supabase s')). lia.
Qed.

Lemma calls_fst supabase cs :
  (calls supabase cs).*1 = take (length (calls supabase cs)) cs.
Proof.
  revert supabase. induction cs as [|c cs IH]; intros supabase; [done|].
  cbn [calls]. destruct (insert_execute _ _ _ _) as [[e|res] s'].
  - done.
  - cbn. f_equal. apply IH.
Qed.

Lemma calls_nonempty supabase c cs : 0 < length (calls supabase (c :: cs)).
Proof.
  cbn [calls]. destruct (insert_execute _ _ _ _) as [res s']. simpl. lia.
Qed.

Lemma calls_complete supabase cs :
  first_raise (calls supabase cs) = None →
  length (calls supabase cs) = length cs.
Proof.
  revert supabase. induction cs as [|c cs IH]; intros supabase; [done|].
  cbn [calls]. destruct (insert_execute _ _ _ _) as [[e|res] s'].
  - done.
  - cbn. intros H. by rewrite IH.
Qed.

Lemma calls_returned_before supabase cs k cr :
  calls supabase cs !! k = Some cr →
  Forall returned (take k (calls supabase cs)).
Proof.
  revert supabase k. induction cs as [|c cs IH]; intros supabase k; [done|].
  cbn [calls]. destruct (insert_execute _ _ _ _) as [[e|res] s'].
  - destruct k as [|k]; [constructor|done].
  - destruct k as [|k]; [constructor|]. cbn. intros Hk.
    constructor; [by exists res|]. by apply (IH _ _ Hk).
Qed.

Lemma calls_raise_last supabase cs k c e :
  calls supabase cs !! k = Some (c, inl e) →
  length (calls supabase cs) = S k
  ∧ first_raise (calls supabase cs) = Some e.
Proof.
  revert supabase k. induction cs as [|c' cs IH]; intros supabase k; [done|].
  cbn [calls]. destruct (insert_execute _ _ _ _) as [[e'|res] s'].
  - destruct k as [|k]; [|done]. by intros [= -> ->].
  - destruct k as [|k]; [done|]. cbn. intros Hk.
    destruct (IH _ _ Hk) as [Hl Hf]. by rewrite Hl, Hf.
Qed.


Lemma transcript_insert supabase rows :
  transcript (insert_icons_to_supabase supabase rows).2
  = calls supabase (chunks 100 rows).
Proof.
  destruct (decide (rows = [])) as [->|Hne]; [done|].
  by rewrite insert_trace_events, transcript_events_from.
Qed.

(** The chunks submitted are the first blocks of 100 rows. *)
Lemma submitted_prefix supabase rows :
  let cs := submitted (insert_icons_to_supabase supabase rows).2 in
  cs = take (length cs) (chunks 100 rows).
Proof.
  cbv zeta. unfold submitted. rewrite transcript_insert, length_fmap.
  apply calls_fst.
Qed.

(** When no call raises they are all the blocks. *)
Lemma submitted_chunks supabase rows :
  (insert_icons_to_supabase supabase rows).1.2 = None →
  submitted (insert_icons_to_supabase supabase rows).2 = chunks 100 rows.
Proof.
  intros Hnone. rewrite submitted_prefix.
  unfold submitted. rewrite transcript_insert, length_fmap.
  rewrite insert_raised in Hnone. rewrite calls_complete by done.
  apply take_ge. lia.
Qed.

End Publisher.

(** ** Identifiers *)

Section UuidFacts.

Import Uuid.

Lemma hex_digit_inj (a b : N) :
  (a < 16)%N → (b < 16)%N → hex_digit a = hex_digit b → a = b.
Proof.
  unfold hex_digit. intros Ha Hb.
  destruct (N.ltb_spec a 10), (N.ltb_spec b 10); lia.
Qed.

Lemma hex_length k n : length (hex k n) = k.
Proof.
  revert n. induction k as [|k IH]; intros n; [done|].
  simpl. rewrite length_app, IH. simpl. lia.
Qed.

Lemma hex_inj k (n m : N) :
  (n < 16 ^ N.of_nat k)%N → (m < 16 ^ N.of_nat k)%N →
  hex k n = hex k m → n = m.
Proof.
  revert n m. induction k as [|k IH]; intros n m Hn Hm Heq.
  - simpl in Hn, Hm. lia.
  - rewrite Nat2N.inj_succ, N.pow_succ_r' in Hn, Hm.
    cbn [hex] in Heq. apply app_inj_tail in Heq as [Hhi Hlo].
    apply IH in Hhi;
      [|apply N.Div0.div_lt_upper_bound; lia
       |apply N.Div0.div_lt_upper_bound; lia].
    apply hex_digit_inj in Hlo; [|by apply N.mod_lt|by apply N.mod_lt].
    rewrite (N.div_mod n 16), (N.div_mod m 16) by lia. congruence.
Qed.

Lemma to_str_length n : length (to_str n) = 36.
Proof.
  unfold to_str. cbn zeta.
  rewrite !length_app, !length_take, !length_drop, !hex_length. done.
Qed.

Lemma to_str_nonempty n : to_str n ≠ [].
Proof.
  intros H. pose proof (to_str_length n) as Hl. by rewrite H in Hl.
Qed.

Lemma regroup (x : str) :
  x = take 8 x ++ take 4 (drop 8 x) ++ take 4 (drop 12 x)
        ++ take 4 (drop 16 x) ++ drop 20 x.
Proof.
  rewrite <- (take_drop 8 x) at 1. f_equal.
  rewrite <- (take_drop 4 (drop 8 x)) at 1. f_equal.
  rewrite drop_drop. simpl (8 + 4).
  rewrite <- (take_drop 4 (drop 12 x)) at 1. f_equal.
  rewrite drop_drop. simpl (12 + 4).
  rewrite <- (take_drop 4 (drop 16 x)) at 1. f_equal.
  by rewrite drop_drop.
Qed.

Lemma to_str_inj (n m : N) :
  (n < 2 ^ 128)%N → (m < 2 ^ 128)%N → to_str n = to_str m → n = m.
Proof.
  intros Hn Hm Heq. apply (hex_inj 32); [done|done|].
  unfold to_str in Heq. cbn zeta in Heq.
  pose proof (hex_length 32 n) as Ln. pose proof (hex_length 32 m) as Lm.
  repeat
    (apply app_inj_1 in Heq as [? Heq];
     [|by rewrite ?length_take, ?length_drop, ?Ln, ?Lm]).
  rewrite (regroup (hex 32 n)), (regroup (hex 32 m)). congruence.
Qed.

End UuidFacts.

(** ** The loop over the catalog *)

Section Catalog.

Context (path_exists : str → bool) (uuid4 : nat → N).
Implicit Types (st : loop_state) (icon : entry) (icons : list entry).

Local Abbreviation body := (loop_body path_exists uuid4).

Lemma loop_body_nameless st icon :
  name_missing icon → body st icon = st.
Proof. unfold loop_body. intros [H | H]; by rewrite H. Qed.

Lemma loop_body_absent st icon name :
  icon !! "name" = Some name → name ≠ [] →
  path_exists (local_path_of name) = false →
  body st icon
  = {| rows_to_insert := rows_to_insert st;
       printed :=
         printed st ++ [msg_file_not_found name (local_path_of name)];
       drawn := drawn st |}.
Proof.
  intros Hname Hne Hpath. unfold loop_body, local_path_of in *.
  rewrite Hname. destruct name as [|c name]; [done|].
  cbn [Str.truthy negb]. by rewrite Hpath.
Qed.

Lemma loop_body_present st icon name :
  icon !! "name" = Some name → name ≠ [] →
  path_exists (local_path_of name) = true →
  body st icon
  = {| rows_to_insert :=
         rows_to_insert st
           ++ [ {| Row.id := Uuid.to_str (uuid4 (drawn st));
                   Row.icon_name := name;
                   Row.tags :=
                     parse_tags (default (Str.lit "") (icon !! "tags"))
                                (icon !! "category");
                   Row.keyword := Str.lit "";
                   Row.file := file_name_of name;
                   Row.embedding := None |} ];
       printed := printed st;
       drawn := S (drawn st) |}.
Proof.
  intros Hname Hne Hpath. unfold loop_body, local_path_of in *.
  rewrite Hname. destruct name as [|c name]; [done|].
  cbn [Str.truthy negb]. by rewrite Hpath.
Qed.

(** The three ways an entry can go. *)
Lemma loop_body_cases st icon :
  (name_missing icon ∧ body st icon = st)
  ∨ (∃ name, icon !! "name" = Some name ∧ name ≠ []
       ∧ path_exists (local_path_of name) = false)
  ∨ (∃ name, icon !! "name" = Some name ∧ name ≠ []
       ∧ path_exists (local_path_of name) = true).
Proof.
  destruct (icon !! "name") as [[|c name]|] eqn:Hname.
  - left. split; [by right|]. apply loop_body_nameless. by right.
  - destruct (path_exists (local_path_of (c :: name))) eqn:Hpath.
    + right. right. by exists (c :: name).
    + right. left. by exists (c :: name).
  - left. split; [by left|]. apply loop_body_nameless. by left.
Qed.

Lemma loop_ids icons st :
  drawn st ≤ drawn (foldl body st icons)
  ∧ drawn (foldl body st icons) ≤ drawn st + length icons
  ∧ Row.id <$> rows_to_insert (foldl body st icons)
    = (Row.id <$> rows_to_insert st)
        ++ ((λ k, Uuid.to_str (uuid4 k))
              <$> seq (drawn st) (drawn (foldl body st icons) - drawn st)).
Proof.
  revert st. induction icons as [|icon icons IH]; intros st.
  - simpl. rewrite Nat.sub_diag. simpl. rewrite app_nil_r.
    split_and!; [lia|lia|done].
  - cbn [foldl length]. specialize (IH (body st icon)).
    destruct IH as (Hle & Hub & Hids).
    destruct (loop_body_cases st icon)
      as [[_ Heq] | [(name & H1 & H2 & H3) | (name & H1 & H2 & H3)]].
    + rewrite Heq in *. split_and!; [lia|lia|done].
    + rewrite (loop_body_absent st icon name) in * by done.
      simpl in *. split_and!; [lia|lia|done].
    + rewrite (loop_body_present st icon name) in * by done.
      set (st1 := Build_loop_state _ _ _) in *.
      change (drawn st1) with (S (drawn st)) in *.
      split_and!; [lia|lia|].
      rewrite Hids. subst st1. cbn [rows_to_insert].
      rewrite fmap_app, <- app_assoc. f_equal.
      set (d := drawn (foldl body _ icons)) in *.
      replace (d - drawn st) with (S (d - S (drawn st))) by lia.
      done.
Qed.

Lemma loop_rows_well_formed icons all st :
  icons ⊆ all →
  Forall (row_well_formed all) (rows_to_insert st) →
  Forall (row_well_formed all) (rows_to_insert (foldl body st icons)).
Proof.
  revert st. induction icons as [|icon icons IH]; intros st Hsub Hst.
  - done.
  - cbn [foldl]. apply IH; [set_solver|].
    destruct (loop_body_cases st icon)
      as [[_ Heq] | [(name & H1 & H2 & H3) | (name & H1 & H2 & H3)]].
    + by rewrite Heq.
    + by rewrite (loop_body_absent st icon name).
    + rewrite (loop_body_present st icon name) by done. simpl.
      apply Forall_app. split; [done|]. apply Forall_singleton.
      unfold row_well_formed. simpl. split_and!; try done.
      exists icon. split; [set_solver|done].
Qed.

End Catalog.

(** ** The claims about [parse_tags] *)

Lemma candidate_tags_category raw_tags category :
  candidate_tags raw_tags category
  = candidate_tags raw_tags None
      ++ match category with
         | Some c => if Str.truthy c then [Str.strip c] else []
         | None => []
         end.
Proof.
  unfold candidate_tags. destruct category as [c|].
  - destruct (Str.truthy c); by rewrite ?app_nil_r.
  - by rewrite app_nil_r.
Qed.

Lemma split_pieces_nonempty raw_tags :
  Forall (λ t, t ≠ []) (candidate_tags raw_tags None).
Proof.
  unfold candidate_tags. destruct (Str.truthy raw_tags); [|constructor].
  apply Forall_fmap, Forall_forall. intros t Ht.
  apply list_elem_of_filter in Ht as [Ht _]. simpl.
  by destruct (Str.strip t).
Qed.

(** Outside the defect of C1: with no category, or one that is not
    blank, no tag of the result is the empty string. *)
Lemma parse_tags_no_empty raw_tags category :
  (∀ c, category = Some c → Str.strip c ≠ []) →
  Forall (λ t, t ≠ []) (parse_tags raw_tags category).
Proof.
  intros Hc. apply Forall_forall. intros t Ht.
  rewrite parse_tags_first_occurrences, first_occurrences_elem in Ht.
  rewrite candidate_tags_category, elem_of_app in Ht.
  destruct Ht as [Ht|Ht].
  - pose proof (split_pieces_nonempty raw_tags) as H.
    rewrite Forall_forall in H. by apply H.
  - destruct category as [c|]; [|by apply elem_of_nil in Ht].
    destruct (Str.truthy c); [|by apply elem_of_nil in Ht].
    apply list_elem_of_singleton in Ht as ->. by apply Hc.
Qed.

(** C1. The claim: for every raw tag string and every optional
    category, the list returned by [parse_tags] has no duplicate and no
    empty string. The code tests the category before trimming it, so a
    category made of white space passes the test and is appended as the
    empty string: for the raw tags ["sun, sky"] and the category [" "]
    the result is [["sun"; "sky"; ""]]. *)
Theorem parse_tags_blank_category :
  parse_tags (Str.lit "sun, sky") (Some (Str.lit " "))
  = [Str.lit "sun"; Str.lit "sky"; Str.lit ""].
Proof. vm_compute. reflexivity. Qed.

(** C7. [parse_tags] keeps, of the trimmed raw tags followed by the
    trimmed category, exactly the elements that are equal to no earlier
    element, in their order; equality is equality of strings, code
    point by code point, so tags that differ in case are both kept; and
    [parse_tags("b, a, b", "a")] is [["b"; "a"]]. *)
Theorem parse_tags_dedup_first_occurrence :
  (∀ raw_tags category,
     parse_tags raw_tags category
     = first_occurrences (candidate_tags raw_tags category))
  ∧ (∀ raw_tags category,
       candidate_tags raw_tags category
       = candidate_tags raw_tags None
           ++ match category with
              | Some c => if Str.truthy c then [Str.strip c] else []
              | None => []
              end)
  ∧ (∀ l, NoDup (first_occurrences l))
  ∧ (∀ l x, x ∈ first_occurrences l ↔ x ∈ l)
  ∧ parse_tags (Str.lit "b, a, b") (Some (Str.lit "a"))
    = [Str.lit "b"; Str.lit "a"]
  ∧ parse_tags (Str.lit "Sun, sun, SUN, sun") (Some (Str.lit "Sun"))
    = [Str.lit "Sun"; Str.lit "sun"; Str.lit "SUN"].
Proof.
  split_and!.
  - apply parse_tags_first_occurrences.
  - apply candidate_tags_category.
  - apply first_occurrences_NoDup.
  - apply first_occurrences_elem.
  - vm_compute. reflexivity.
  - vm_compute. reflexivity.
Qed.

(** ** The claims about [insert_icons_to_supabase] *)

Lemma chunk_count_bounds n :
  ((n + 100 - 1) / 100) * 100 < n + 100 ∧ n ≤ ((n + 100 - 1) / 100) * 100.
Proof.
  pose proof (Nat.div_mod_eq (n + 100 - 1) 100).
  pose proof (Nat.mod_upper_bound (n + 100 - 1) 100). lia.
Qed.

Lemma insert_trace_lookup supabase rows k cr :
  transcript (insert_icons_to_supabase supabase rows).2 !! k = Some cr →
  let out := (insert_icons_to_supabase supabase rows).2 in
  out !! (3 * k) = Some (Print (msg_inserting (length cr.1) (k + 1)))
  ∧ out !! (3 * k + 1) = Some (Insert SUPABASE_TABLE cr.1 cr.2)
  ∧ (∀ res, cr.2 = inr res →
       out !! (3 * k + 2) = Some (Print (report res))).
Proof.
  destruct (decide (rows = [])) as [->|Hne]; [done|].
  intros Hk. cbv zeta. rewrite insert_trace_events in * by done.
  rewrite transcript_events_from in Hk.
  apply (events_from_lookup 0); [|done].
  by apply calls_returned_before in Hk.
Qed.

Lemma transcript_lookup_chunk supabase rows j cr :
  transcript (insert_icons_to_supabase supabase rows).2 !! j = Some cr →
  j < length (chunks 100 rows) ∧ cr.1 = take 100 (drop (j * 100) rows).
Proof.
  rewrite transcript_insert. intros Hj.
  assert (Hfst : (calls supabase (chunks 100 rows)).*1 !! j = Some cr.1)
    by (by rewrite list_lookup_fmap, Hj).
  rewrite calls_fst in Hfst. apply lookup_take_Some in Hfst as [Hc _].
  pose proof (lookup_lt_Some _ _ _ Hc) as Hlt. split; [done|].
  rewrite chunks_length in Hlt by lia.
  rewrite chunks_lookup in Hc by lia. congruence.
Qed.

Lemma calls_next supabase cs k c res :
  calls supabase cs !! k = Some (c, inr res) → S k < length cs →
  is_Some (calls supabase cs !! S k).
Proof.
  revert supabase k. induction cs as [|c' cs IH]; intros supabase k; [done|].
  cbn [calls]. destruct (insert_execute _ _ _ _) as [[e'|res'] s'].
  - destruct k as [|k]; [|done]. by intros [= _ ?].
  - destruct k as [|k]; cbn [length].
    + intros _ Hlt. destruct cs as [|c2 cs]; [simpl in Hlt; lia|].
      apply lookup_lt_is_Some. cbn [length].
      pose proof (calls_nonempty (with_state supabase s') c2 cs). lia.
    + intros Hk Hlt. apply (IH _ _ Hk). lia.
Qed.

Lemma transcript_next supabase rows k chunk res :
  transcript (insert_icons_to_supabase supabase rows).2 !! k
  = Some (chunk, inr res) →
  S k < length (chunks 100 rows) →
  ∃ r, transcript (insert_icons_to_supabase supabase rows).2 !! S k
       = Some (take 100 (drop (S k * 100) rows), r).
Proof.
  intros Hk Hlt.
  assert (is_Some (transcript
            (insert_icons_to_supabase supabase rows).2 !! S k))
    as [[c r] Hnext].
  { rewrite transcript_insert in *. by apply (calls_next _ _ _ _ _ Hk). }
  exists r. destruct (transcript_lookup_chunk _ _ _ _ Hnext) as [_ Hc].
  simpl in Hc. by rewrite Hnext, Hc.
Qed.

Lemma transcript_all_returned supabase rows j :
  (insert_icons_to_supabase supabase rows).1.2 = None →
  j < length (chunks 100 rows) →
  ∃ res, transcript (insert_icons_to_supabase supabase rows).2 !! j
         = Some (take 100 (drop (j * 100) rows), inr res).
Proof.
  intros Hnone Hj. rewrite insert_raised in Hnone.
  assert (is_Some (transcript
            (insert_icons_to_supabase supabase rows).2 !! j))
    as [[c r] Hcr].
  { rewrite transcript_insert. apply lookup_lt_is_Some.
    by rewrite calls_complete. }
  destruct (transcript_lookup_chunk _ _ _ _ Hcr) as [_ Hc]. simpl in Hc.
  destruct r as [e|res].
  - rewrite transcript_insert in Hcr.
    apply calls_raise_last in Hcr as [_ Hraise]. congruence.
  - exists res. by rewrite Hcr, Hc.
Qed.

Lemma transcript_raise supabase rows j c e :
  transcript (insert_icons_to_supabase supabase rows).2 !! j
  = Some (c, inl e) →
  (insert_icons_to_supabase supabase rows).1.2 = Some e
  ∧ length (transcript (insert_icons_to_supabase supabase rows).2) = S j
  ∧ length (insert_icons_to_supabase supabase rows).2 = 3 * j + 2.
Proof.
  intros Hj. destruct (decide (rows = [])) as [->|Hne]; [done|].
  rewrite insert_raised. rewrite transcript_insert in *.
  destruct (calls_raise_last _ _ _ _ _ Hj) as [Hlen Hraise].
  split_and!; [done|done|].
  rewrite insert_trace_events by done.
  rewrite <- (take_drop j (calls supabase (chunks 100 rows))).
  rewrite events_from_app, length_app.
  rewrite events_from_returned_length
    by (by apply calls_returned_before in Hj).
  rewrite (drop_S _ _ _ Hj), drop_ge by lia.
  rewrite length_take_le by lia. simpl. lia.
Qed.


Lemma msg_inserted_not_error e : msg_inserted ≠ msg_supabase_error e.
Proof. unfold msg_inserted, msg_supabase_error. cbv. discriminate. Qed.


(** C3, as amended. When the response returned for one chunk carries a
    true [error], the next event of the trace is the line
    ["  (warning sign) Supabase error: "] followed by the text of that
    error, and the loop goes on: the next chunk, if there is one, is
    submitted. When no insert call raises, every chunk is submitted and
    answered; with three chunks of which the second reports an error,
    the first and the third are submitted, before and after it. An
    insert call that raises is not caught: it comes after this chunk,
    ends the function with its exception, is the last call made, and
    the trace ends with it, without a diagnostic. *)
Theorem publisher_isolates_failures supabase rows k chunk res e :
  let run := insert_icons_to_supabase supabase rows in
  let out := run.2 in
  transcript out !! k = Some (chunk, inr res) →
  error res = Some e → truth e = true →
  out !! (3 * k + 1) = Some (Insert SUPABASE_TABLE chunk (inr res))
  ∧ out !! (3 * k + 2)
    = Some (Print (Str.lit "  " ++ [0x26A0; 0xFE0F]%N
                     ++ Str.lit " Supabase error: " ++ text e))
  ∧ (S k < length (chunks 100 rows) →
     ∃ r, transcript out !! S k
          = Some (take 100 (drop (S k * 100) rows), r))
  ∧ (run.1.2 = None →
     submitted out = chunks 100 rows
     ∧ ∀ j, j < length (chunks 100 rows) →
         ∃ res', transcript out !! j
                 = Some (take 100 (drop (j * 100) rows), inr res'))
  ∧ (∀ j c e', transcript out !! j = Some (c, inl e') →
       k < j ∧ run.1.2 = Some e'
       ∧ length (transcript out) = S j ∧ length out = 3 * j + 2)
  ∧ (k = 1 → 200 < length rows ≤ 300 →
       ∃ res0 r2,
         transcript out
         = [(take 100 rows, inr res0); (chunk, inr res);
            (take 100 (drop 200 rows), r2)]).
Proof.
  cbv zeta. intros Hk He Htruth.
  destruct (insert_trace_lookup _ _ _ _ Hk) as (_ & Hins & Hrep).
  cbn [fst snd] in Hins, Hrep. specialize (Hrep res eq_refl).
  split_and!.
  - exact Hins.
  - rewrite Hrep. unfold report, getattr_error. rewrite He. simpl.
    by rewrite Htruth.
  - intros Hlt. by apply (transcript_next _ _ _ _ _ Hk).
  - intros Hnone. split; [by apply submitted_chunks|].
    intros j Hj. by apply transcript_all_returned.
  - intros j c e' Hj.
    destruct (transcript_raise _ _ _ _ _ Hj) as (Hraise & Hlen & Hout).
    split_and!; [|done|done|done].
    pose proof (lookup_lt_Some _ _ _ Hk) as Hlt. rewrite Hlen in Hlt.
    destruct (decide (k = j)) as [->|]; [congruence|lia].
  - intros -> Hlen.
    assert (Hcount : length (chunks 100 rows) = 3).
    { rewrite chunks_length by lia.
      pose proof (chunk_count_bounds (length rows)). lia. }
    destruct (transcript_next _ _ _ _ _ Hk) as [r2 H2]; [lia|].
    assert (Hl : length (transcript
                (insert_icons_to_supabase supabase rows).2) = 3).
    { apply lookup_lt_Some in H2.
      pose proof (calls_length supabase (chunks 100 rows)) as Hle.
      rewrite transcript_insert in *. lia. }
    destruct (transcript _) as [|[c0 r0] [|t1 [|t2 [|t3 ts]]]] eqn:Ht;
      simpl in Hl; try lia.
    assert (H0 : transcript (insert_icons_to_supabase supabase rows).2 !! 0
                 = Some (c0, r0)) by (by rewrite Ht).
    destruct (transcript_lookup_chunk _ _ _ _ H0) as [_ Hc0].
    simpl in Hc0. rewrite drop_0 in Hc0.
    destruct r0 as [e0|res0].
    { destruct (transcript_raise _ _ _ _ _ H0) as (_ & Hlen0 & _).
      rewrite Ht in Hlen0. simpl in Hlen0. lia. }
    exists res0, r2. simpl in H2, Hk. congruence.
Qed.

(** C8. Given an empty list of rows the publisher prints the line that
    says there is nothing to insert and returns: the trace holds that
    line only, no insert call, no exception, and the client is left as
    it was. *)
Theorem publisher_empty supabase :
  insert_icons_to_supabase supabase []
  = (supabase, None, [Print msg_no_rows])
  ∧ transcript (insert_icons_to_supabase supabase []).2 = []
  ∧ lines (insert_icons_to_supabase supabase []).2 = [msg_no_rows].
Proof. done. Qed.

(** C10. For every chunk whose insert call returns a response, the line
    printed after the call depends on the response only through
    [getattr(res, "error", None)]: when the response has no [error]
    attribute, or a false one, the line is the success line; when it
    has a true one, the line is the error diagnostic; and the error
    diagnostic is printed in no other case. *)
Theorem publisher_report supabase rows k chunk res :
  let out := (insert_icons_to_supabase supabase rows).2 in
  transcript out !! k = Some (chunk, inr res) →
  (error res = None → out !! (3 * k + 2) = Some (Print msg_inserted))
  ∧ (∀ e, error res = Some e → truth e = false →
       out !! (3 * k + 2) = Some (Print msg_inserted))
  ∧ (∀ e, error res = Some e → truth e = true →
       out !! (3 * k + 2) = Some (Print (msg_supabase_error e)))
  ∧ (∀ e', out !! (3 * k + 2) = Some (Print (msg_supabase_error e')) →
       ∃ e, error res = Some e ∧ truth e = true).
Proof.
  cbv zeta. intros Hk.
  destruct (insert_trace_lookup _ _ _ _ Hk) as (_ & _ & Hrep).
  cbn [fst snd] in Hrep. rewrite (Hrep res eq_refl).
  unfold report, getattr_error.
  split_and!.
  - intros ->. done.
  - intros e -> Ht. simpl. by rewrite Ht.
  - intros e -> Ht. simpl. by rewrite Ht.
  - intros e' [= H]. destruct (error res) as [e|]; simpl in H.
    + destruct (truth e) eqn:Ht; [by exists e|].
      by apply msg_inserted_not_error in H.
    + by apply msg_inserted_not_error in H.
Qed.

(** ** The claims about the loop of [main] *)

Section CatalogClaims.

Context (path_exists : str → bool) (uuid4 : nat → N).
Implicit Types (st : loop_state) (icon : entry) (icons : list entry).

Local Abbreviation body := (loop_body path_exists uuid4).
Local Abbreviation build := (build_rows path_exists uuid4).

Lemma loop_body_frame icon st1 st2 :
  rows_to_insert st1 = rows_to_insert st2 → drawn st1 = drawn st2 →
  ∃ d,
    rows_to_insert (body st1 icon) = rows_to_insert (body st2 icon)
    ∧ drawn (body st1 icon) = drawn (body st2 icon)
    ∧ printed (body st1 icon) = printed st1 ++ d
    ∧ printed (body st2 icon) = printed st2 ++ d.
Proof.
  intros Hr Hd.
  destruct (loop_body_cases path_exists uuid4 st1 icon)
    as [[Hm Heq] | [(name & H1 & H2 & H3) | (name & H1 & H2 & H3)]].
  - rewrite Heq, (loop_body_nameless _ _ st2 icon Hm).
    exists []. by rewrite !app_nil_r.
  - rewrite (loop_body_absent _ _ st1 icon name) by done.
    rewrite (loop_body_absent _ _ st2 icon name) by done.
    by eexists.
  - rewrite (loop_body_present _ _ st1 icon name) by done.
    rewrite (loop_body_present _ _ st2 icon name) by done.
    exists []. cbn. by rewrite !app_nil_r, Hr, Hd.
Qed.

(** Two runs of the loop from states that agree on the rows and on the
    number of identifiers drawn build the same rows and print the
    same lines after what each had printed before. *)
Lemma loop_frame icons st1 st2 :
  rows_to_insert st1 = rows_to_insert st2 → drawn st1 = drawn st2 →
  ∃ later,
    rows_to_insert (foldl body st1 icons)
      = rows_to_insert (foldl body st2 icons)
    ∧ printed (foldl body st1 icons) = printed st1 ++ later
    ∧ printed (foldl body st2 icons) = printed st2 ++ later.
Proof.
  revert st1 st2. induction icons as [|icon icons IH]; intros st1 st2 Hr Hd.
  - exists []. by rewrite !app_nil_r.
  - cbn [foldl].
    destruct (loop_body_frame icon st1 st2 Hr Hd)
      as (d & Hr' & Hd' & Hp1 & Hp2).
    destruct (IH _ _ Hr' Hd') as (later & Hrows & Hq1 & Hq2).
    exists (d ++ later).
    rewrite Hrows, Hq1, Hq2, Hp1, Hp2, <- !app_assoc. done.
Qed.

(** C4, as amended. An entry whose name is missing (the key is absent
    or the name is empty) is skipped without a word: the loop leaves
    its state as it was, so no line is printed and no row is built
    for the entry, and the whole run is the run on the catalog
    without that entry. *)
Theorem nameless_entry_skipped_silently icon :
  name_missing icon →
  (∀ st, body st icon = st)
  ∧ (∀ pre post, build (pre ++ icon :: post) = build (pre ++ post)).
Proof.
  intros Hm. split.
  - intros st. by apply loop_body_nameless.
  - intros pre post. unfold build_rows.
    rewrite !foldl_app. cbn [foldl]. by rewrite loop_body_nameless.
Qed.

(** C5. Every row built by the loop has an empty [keyword], no
    [embedding], and the [file] made of the name of its entry, a
    hyphen, the style suffix and [".svg"]; its [icon_name] is the name
    of an entry of the catalog. *)
Theorem rows_well_formed icons :
  Forall (row_well_formed icons) (rows_to_insert (build icons)).
Proof. apply loop_rows_well_formed; [done|constructor]. Qed.

(** C6. For an entry with a name whose file does not exist, the loop
    prints the line that names the icon and the path, builds no row
    and draws no identifier; the later entries are processed as they
    would be without it; and a catalog of one entry whose file exists
    and one whose file does not yields one row. *)
Theorem absent_file_skipped icon name :
  icon !! "name" = Some name → name ≠ [] →
  path_exists (local_path_of name) = false →
  (∀ st,
     rows_to_insert (body st icon) = rows_to_insert st
     ∧ drawn (body st icon) = drawn st
     ∧ printed (body st icon)
       = printed st ++ [msg_file_not_found name (local_path_of name)])
  ∧ (∃ a b c,
       msg_file_not_found name (local_path_of name)
       = a ++ name ++ b ++ local_path_of name ++ c)
  ∧ (∀ pre post, ∃ later,
       rows_to_insert (build (pre ++ icon :: post))
         = rows_to_insert (build (pre ++ post))
       ∧ printed (build (pre ++ icon :: post))
         = printed (build pre)
             ++ [msg_file_not_found name (local_path_of name)] ++ later
       ∧ printed (build (pre ++ post)) = printed (build pre) ++ later)
  ∧ (∀ icon' name',
       icon' !! "name" = Some name' → name' ≠ [] →
       path_exists (local_path_of name') = true →
       length (rows_to_insert (build [icon'; icon])) = 1
       ∧ length (rows_to_insert (build [icon; icon'])) = 1).
Proof.
  intros Hname Hne Hpath. split_and!.
  - intros st. by rewrite (loop_body_absent _ _ st icon name).
  - unfold msg_file_not_found.
    exists (Str.lit "  " ++ warning_sign
              ++ Str.lit " File not found for icon '").
    exists (Str.lit "': ").
    exists (Str.lit " " ++ em_dash ++ Str.lit " skipping.").
    by rewrite <- !app_assoc.
  - intros pre post. unfold build_rows. rewrite !foldl_app. cbn [foldl].
    set (st := foldl body loop_init pre).
    destruct (loop_frame post (body st icon) st) as (later & Hr & Hp1 & Hp2).
    + by rewrite (loop_body_absent _ _ st icon name).
    + by rewrite (loop_body_absent _ _ st icon name).
    + exists later. rewrite Hr, Hp1, Hp2.
      rewrite (loop_body_absent _ _ st icon name) by done.
      cbn [printed]. by rewrite <- app_assoc.
  - intros icon' name' Hname' Hne' Hpath'. unfold build_rows.
    cbn [foldl].
    rewrite (loop_body_present _ _ loop_init icon' name') by done.
    rewrite (loop_body_absent _ _ loop_init icon name) by done.
    rewrite (loop_body_absent _ _ _ icon name) by done.
    by rewrite (loop_body_present _ _ _ icon' name').
Qed.

(** C9. When the identifiers drawn in the run are 128-bit values,
    distinct from one another, every row of the run has a non-empty
    [id] (the 36 characters of the identifier drawn for it, the
    [i]-th row getting the [i]-th draw) and rows at different
    positions have different [id]s. *)
Theorem ids_nonempty_distinct icons :
  (∀ k, k < length icons → (uuid4 k < 2 ^ 128)%N) →
  (∀ i j, i < length icons → j < length icons →
          uuid4 i = uuid4 j → i = j) →
  let rows := rows_to_insert (build icons) in
  Forall (λ r, Row.id r ≠ Str.lit "" ∧ length (Row.id r) = 36) rows
  ∧ Row.id <$> rows
    = (λ k, Uuid.to_str (uuid4 k)) <$> seq 0 (length rows)
  ∧ NoDup (Row.id <$> rows)
  ∧ (∀ i j ri rj,
       rows !! i = Some ri → rows !! j = Some rj → i ≠ j →
       Row.id ri ≠ Row.id rj).
Proof.
  intros Hbound Hfresh. cbv zeta.
  destruct (loop_ids path_exists uuid4 icons loop_init)
    as (_ & Hd & Hids).
  fold (build icons) in Hd, Hids. simpl in Hd, Hids.
  rewrite Nat.sub_0_r in Hids.
  assert (Hlen : length (rows_to_insert (build icons))
                 = drawn (build icons)).
  { rewrite <- (length_fmap Row.id), Hids, length_fmap, length_seq. done. }
  assert (Hnodup : NoDup (Row.id <$> rows_to_insert (build icons))).
  { rewrite Hids. apply NoDup_fmap_2_strong; [|apply NoDup_seq].
    intros i j Hi%elem_of_seq Hj%elem_of_seq Heq.
    apply to_str_inj in Heq; [|apply Hbound; lia|apply Hbound; lia].
    apply Hfresh; [lia|lia|done]. }
  split_and!.
  - apply Forall_forall. intros r Hr.
    assert (Hin : Row.id r ∈ Row.id <$> rows_to_insert (build icons))
      by (by apply list_elem_of_fmap_2).
    rewrite Hids in Hin. apply list_elem_of_fmap in Hin as (k & -> & _).
    split; [apply to_str_nonempty|apply to_str_length].
  - by rewrite Hlen.
  - exact Hnodup.
  - intros i j ri rj Hi Hj Hij Heq. apply Hij.
    apply (NoDup_lookup _ i j (Row.id ri) Hnodup).
    + by rewrite list_lookup_fmap, Hi.
    + by rewrite list_lookup_fmap, Hj, Heq.
Qed.

End CatalogClaims.

(** ** The whole run *)

Lemma transcript_app out1 out2 :
  transcript (out1 ++ out2) = transcript out1 ++ transcript out2.
Proof. apply omap_app. Qed.

Lemma transcript_prints ls : transcript (Print <$> ls) = [].
Proof. induction ls as [|l ls IH]; [done|exact IH]. Qed.

Lemma client_of_credentials w supabase :
  client_created w supabase → get_supabase_client w = inr supabase.
Proof.
  intros (url & key & Hurl & Hu & Hkey & Hk & Hc).
  unfold get_supabase_client. rewrite Hurl, Hkey. by destruct url, key.
Qed.

Lemma no_client_without_credentials w :
  ¬ credentials_set w →
  get_supabase_client w = inl (RuntimeError msg_credentials).
Proof.
  intros Hno. unfold get_supabase_client.
  destruct (SUPABASE_URL w) as [url|] eqn:Hurl; [|done].
  destruct (SUPABASE_KEY w) as [key|] eqn:Hkey; [|done].
  destruct url as [|c url]; [done|]. destruct key as [|c' key]; [done|].
  exfalso. apply Hno. by exists (c :: url), (c' :: key).
Qed.

Lemma client_of_get w supabase :
  get_supabase_client w = inr supabase → client_created w supabase.
Proof.
  unfold get_supabase_client, client_created.
  destruct (SUPABASE_URL w) as [url|]; [|done].
  destruct (SUPABASE_KEY w) as [key|]; [|done].
  destruct url as [|c url]; [done|]. destruct key as [|c' key]; [done|].
  simpl. intros H. by exists (c :: url), (c' :: key).
Qed.

(** What [fetch_icon_list] gives for an answer whose ["icons"] is not
    [null]. *)
Lemma fetch_icons w f :
  http_get w HUGEICONS_API_URL 30 = JsonObject f → f ≠ IconsNull →
  fetch_icon_list w
  = ([Print msg_fetching; HttpGet HUGEICONS_API_URL 30;
      Print (msg_fetched (length (icons_of f)))], inr (icons_of f)).
Proof.
  intros Hget Hf. unfold fetch_icon_list. rewrite Hget. by destruct f.
Qed.

(** When the client is created, the directory exists and the request
    gives a catalog, the trace of [main] is the fetch, the lines of
    the loop, the count of prepared rows and the trace of the
    publisher; the last line follows when the publisher returns, and
    the exception of the publisher is the exception of the run. *)
Lemma main_returns w supabase f :
  client_created w supabase →
  path_exists w OUTPUT_DIR = true →
  http_get w HUGEICONS_API_URL 30 = JsonObject f → f ≠ IconsNull →
  let st := build_rows (path_exists w) (uuid4 w) (icons_of f) in
  let run := insert_icons_to_supabase supabase (rows_to_insert st) in
  main w
  = ([Print msg_fetching; HttpGet HUGEICONS_API_URL 30;
      Print (msg_fetched (length (icons_of f)))]
       ++ (Print <$> printed st)
       ++ [Print (msg_prepared (length (rows_to_insert st)))]
       ++ run.2
       ++ match run.1.2 with
          | Some _ => []
          | None => [Print msg_done]
          end,
     run.1.2).
Proof.
  intros Hclient Hdir Hget Hf. cbv zeta. unfold main, ensure_output_dir.
  rewrite (client_of_credentials w supabase Hclient), Hdir.
  rewrite (fetch_icons w f Hget Hf). cbn [negb].
  destruct (insert_icons_to_supabase _ _) as [[supabase' raised] out'].
  cbn [fst snd]. destruct raised; rewrite <- ?app_assoc; [|done].
  by rewrite app_nil_r.
Qed.

(** The insert calls of such a run are those of the publisher on the
    rows built by the loop. *)
Lemma main_submits w supabase f :
  client_created w supabase →
  path_exists w OUTPUT_DIR = true →
  http_get w HUGEICONS_API_URL 30 = JsonObject f → f ≠ IconsNull →
  transcript (main w).1
  = transcript
      (insert_icons_to_supabase supabase
         (rows_to_insert
            (build_rows (path_exists w) (uuid4 w) (icons_of f)))).2.
Proof.
  intros Hclient Hdir Hget Hf.
  rewrite (main_returns w supabase f) by done. cbn [fst].
  rewrite !transcript_app, transcript_prints.
  cbn [transcript omap app].
  destruct (insert_icons_to_supabase _ _).1.2; cbn; by rewrite app_nil_r.
Qed.

(** ** The claims on the sample inputs *)

(** The end-to-end scenario: a catalog of two entries, of which only
    the first has its file in the directory. *)
Example end_to_end :
  let out := (main (Fixture.world [Fixture.arrow_up; Fixture.missing_icon])).1 in
  lines out
  = [msg_fetching; msg_fetched 2;
     msg_file_not_found (Str.lit "missing-icon")
       (Str.lit "icons/missing-icon-stroke-rounded.svg");
     msg_prepared 1; msg_inserting 1 1; msg_inserted; msg_done]
  ∧ submitted out
    = [[ {| Row.id := Str.lit "00000000-0000-0000-0000-000000000000";
            Row.icon_name := Str.lit "arrow-up";
            Row.tags :=
              [Str.lit "direction"; Str.lit "arrow"; Str.lit "navigation"];
            Row.keyword := Str.lit "";
            Row.file := Str.lit "arrow-up-stroke-rounded.svg";
            Row.embedding := None |} ]].
Proof. vm_compute. split; reflexivity. Qed.



Lemma publisher_isolates_failures_witness :
  let rows := Fixture.sample_rows 250 in
  let out := (insert_icons_to_supabase Fixture.fails_second rows).2 in
  transcript out !! 1 = Some (take 100 (drop 100 rows), inr Fixture.failed)
  ∧ out !! 5
    = Some (Print (Str.lit "  " ++ [0x26A0; 0xFE0F]%N
                     ++ Str.lit " Supabase error: timeout"))
  ∧ ∃ res0 r2,
      transcript out
      = [(take 100 rows, inr res0);
         (take 100 (drop 100 rows), inr Fixture.failed);
         (take 100 (drop 200 rows), r2)].
Proof.
  cbv zeta.
  assert (H : transcript
                (insert_icons_to_supabase Fixture.fails_second
                   (Fixture.sample_rows 250)).2 !! 1
              = Some (take 100 (drop 100 (Fixture.sample_rows 250)),
                      inr Fixture.failed))
    by (vm_compute; reflexivity).
  split; [exact H|].
  destruct (publisher_isolates_failures Fixture.fails_second
              (Fixture.sample_rows 250) 1 _ _ Fixture.timeout H
              eq_refl eq_refl) as (_ & Hdiag & _ & _ & _ & Hthree).
  split; [exact Hdiag|].
  apply Hthree; [reflexivity|].
  unfold Fixture.sample_rows. rewrite length_fmap, length_seq. lia.
Defined.

(** C3, as stated, fails: with 250 rows and a store whose first insert
    call returns a response with an error and whose second call raises,
    the error of the first chunk is printed, but the third chunk is
    never submitted, and the failure of the second chunk (the
    exception) gets no diagnostic: the trace ends with the second
    insert call and the function ends with the exception. *)
Lemma publisher_raise_stops_submission :
  let rows := Fixture.sample_rows 250 in
  let run := insert_icons_to_supabase Fixture.fails_first_raises_second rows in
  length (chunks 100 rows) = 3
  ∧ transcript run.2
    = [(take 100 rows, inr Fixture.failed);
       (take 100 (drop 100 rows), inl Fixture.unreachable)]
  ∧ lines run.2
    = [msg_inserting 100 1; msg_supabase_error Fixture.timeout;
       msg_inserting 100 2]
  ∧ ¬ (take 100 (drop 200 rows) ∈ submitted run.2)
  ∧ run.1.2 = Some Fixture.unreachable.
Proof.
  cbv zeta. split_and!.
  - vm_compute. reflexivity.
  - vm_compute. reflexivity.
  - vm_compute. reflexivity.
  - assert (Hs : submitted
                   (insert_icons_to_supabase Fixture.fails_first_raises_second
                      (Fixture.sample_rows 250)).2
                 = [take 100 (Fixture.sample_rows 250);
                    take 100 (drop 100 (Fixture.sample_rows 250))])
      by (vm_compute; reflexivity).
    rewrite Hs. intros Hin.
    apply elem_of_cons in Hin as [Heq|Hin];
      [|apply list_elem_of_singleton in Hin as Heq];
      apply (f_equal (λ l, fmap Row.id (head l))) in Heq;
      vm_compute in Heq; discriminate.
  - vm_compute. reflexivity.
Qed.

Lemma publisher_report_witness :
  let rows := Fixture.sample_rows 250 in
  let out := (insert_icons_to_supabase Fixture.fails_second rows).2 in
  transcript out !! 0 = Some (take 100 rows, inr Fixture.ok)
  ∧ out !! 2 = Some (Print msg_inserted).
Proof.
  cbv zeta.
  assert (H : transcript
                (insert_icons_to_supabase Fixture.fails_second
                   (Fixture.sample_rows 250)).2 !! 0
              = Some (take 100 (Fixture.sample_rows 250), inr Fixture.ok))
    by (vm_compute; reflexivity).
  split; [exact H|].
  destruct (publisher_report Fixture.fails_second
              (Fixture.sample_rows 250) 0 _ _ H) as (Hnone & _).
  apply Hnone. reflexivity.
Defined.

Lemma nameless_entry_skipped_silently_witness :
  name_missing Fixture.nameless
  ∧ build_rows Fixture.local_files Fixture.counting_ids
      [Fixture.arrow_up; Fixture.nameless; Fixture.missing_icon]
    = build_rows Fixture.local_files Fixture.counting_ids
        [Fixture.arrow_up; Fixture.missing_icon].
Proof.
  assert (H : name_missing Fixture.nameless) by (left; reflexivity).
  split; [exact H|].
  apply (nameless_entry_skipped_silently Fixture.local_files
           Fixture.counting_ids Fixture.nameless H).
Defined.

(** C4, as stated, fails: processing an entry that has no name prints
    nothing, so no diagnostic is emitted for it; the lines of the whole
    run on a catalog made of that entry are the fetch lines, the count
    of prepared rows, the line of the empty insert and the last line. *)
Lemma nameless_entry_no_diagnostic :
  name_missing Fixture.nameless
  ∧ printed (loop_body Fixture.local_files Fixture.counting_ids
               loop_init Fixture.nameless) = []
  ∧ lines (main (Fixture.world [Fixture.nameless])).1
    = [msg_fetching; msg_fetched 1; msg_prepared 0; msg_no_rows; msg_done].
Proof.
  split_and!.
  - left. reflexivity.
  - vm_compute. reflexivity.
  - vm_compute. reflexivity.
Qed.

Lemma absent_file_skipped_witness :
  Fixture.missing_icon !! "name" = Some (Str.lit "missing-icon")
  ∧ Fixture.local_files (local_path_of (Str.lit "missing-icon")) = false
  ∧ length (rows_to_insert
              (build_rows Fixture.local_files Fixture.counting_ids
                 [Fixture.arrow_up; Fixture.missing_icon])) = 1.
Proof.
  assert (H1 : Fixture.missing_icon !! "name" = Some (Str.lit "missing-icon"))
    by reflexivity.
  assert (H2 : Str.lit "missing-icon" ≠ []) by discriminate.
  assert (H3 : Fixture.local_files (local_path_of (Str.lit "missing-icon"))
               = false) by (vm_compute; reflexivity).
  split_and!; [exact H1|exact H3|].
  destruct (absent_file_skipped Fixture.local_files Fixture.counting_ids
              Fixture.missing_icon (Str.lit "missing-icon") H1 H2 H3)
    as (_ & _ & _ & Hone).
  apply (Hone Fixture.arrow_up (Str.lit "arrow-up")).
  - reflexivity.
  - discriminate.
  - vm_compute. reflexivity.
Defined.

Lemma ids_nonempty_distinct_witness :
  let icons := [Fixture.arrow_up; Fixture.missing_icon; Fixture.arrow_up] in
  let rows :=
    rows_to_insert
      (build_rows Fixture.local_files Fixture.counting_ids icons) in
  length rows = 2 ∧ NoDup (Row.id <$> rows).
Proof.
  cbv zeta. split; [vm_compute; reflexivity|].
  apply (ids_nonempty_distinct Fixture.local_files Fixture.counting_ids
           [Fixture.arrow_up; Fixture.missing_icon; Fixture.arrow_up]).
  - intros k Hk. unfold Fixture.counting_ids. simpl in Hk. lia.
  - intros i j _ _. unfold Fixture.counting_ids. lia.
Defined.

(** The other two examples of the specification. *)
Example parse_tags_category_only :
  parse_tags (Str.lit "") (Some (Str.lit "Shapes")) = [Str.lit "Shapes"].
Proof. vm_compute. reflexivity. Qed.

Example parse_tags_nothing : parse_tags (Str.lit "") None = [].
Proof. vm_compute. reflexivity. Qed.

(** * Further properties *)

(** ** Trimming and splitting *)

Section StrFacts.

Import Str.

Implicit Types (s t : str) (c : N).

Lemma lstrip_head s c : head (lstrip s) = Some c → isspace c = false.
Proof.
  induction s as [|x s IH]; [done|]. simpl.
  destruct (isspace x) eqn:Hx; [exact IH|]. simpl. congruence.
Qed.

Lemma lstrip_suffix s : ∃ w, s = w ++ lstrip s.
Proof.
  induction s as [|x s [w IH]]; [by exists []|]. simpl.
  destruct (isspace x).
  - exists (x :: w). simpl. by rewrite <- IH.
  - by exists [].
Qed.

Lemma lstrip_fixed s :
  (∀ c, head s = Some c → isspace c = false) → lstrip s = s.
Proof.
  destruct s as [|x s]; [done|]. intros H. simpl.
  by rewrite (H x).
Qed.

Lemma rstrip_prefix s : ∃ w, s = rstrip s ++ w.
Proof.
  unfold rstrip. destruct (lstrip_suffix (reverse s)) as [w Hw].
  exists (reverse w).
  rewrite <- reverse_app, <- Hw. by rewrite reverse_involutive.
Qed.

Lemma rstrip_last s c : last (rstrip s) = Some c → isspace c = false.
Proof. unfold rstrip. rewrite last_reverse. apply lstrip_head. Qed.

Lemma rstrip_head s c : head (rstrip s) = Some c → head s = Some c.
Proof.
  destruct (rstrip_prefix s) as [w Hw]. intros H. rewrite Hw.
  by destruct (rstrip s).
Qed.

Lemma strip_head s c : head (strip s) = Some c → isspace c = false.
Proof. unfold strip. intros H. by apply rstrip_head, lstrip_head in H. Qed.

Lemma strip_last s c : last (strip s) = Some c → isspace c = false.
Proof. apply rstrip_last. Qed.

Lemma strip_fixed s :
  (∀ c, head s = Some c → isspace c = false) →
  (∀ c, last s = Some c → isspace c = false) →
  strip s = s.
Proof.
  intros Hh Hl. unfold strip, rstrip. rewrite (lstrip_fixed s Hh).
  rewrite lstrip_fixed; [apply reverse_involutive|].
  intros c. rewrite head_reverse. apply Hl.
Qed.

Lemma strip_idemp s : strip (strip s) = strip s.
Proof. apply strip_fixed; [apply strip_head|apply strip_last]. Qed.

Lemma strip_elem s c : c ∈ strip s → c ∈ s.
Proof.
  unfold strip. intros H.
  destruct (rstrip_prefix (lstrip s)) as [w Hw].
  destruct (lstrip_suffix s) as [v Hv].
  rewrite Hv, Hw, !elem_of_app. auto.
Qed.

Lemma split_no_sep sep s : Forall (λ piece, sep ∉ piece) (split sep s).
Proof.
  induction s as [|c s IH]; simpl.
  - repeat constructor. apply not_elem_of_nil.
  - destruct (N.eqb_spec c sep) as [->|Hne].
    + constructor; [apply not_elem_of_nil|done].
    + destruct (split sep s) as [|piece pieces].
      * repeat constructor. rewrite list_elem_of_singleton. congruence.
      * inversion IH as [|? ? Hp Hps]; subst. constructor; [|done].
        rewrite elem_of_cons. intros [?|?]; [congruence|done].
Qed.

End StrFacts.

(** ** More on [parse_tags] *)

Lemma candidate_tags_elem raw_tags category t :
  t ∈ candidate_tags raw_tags category
  ↔ (∃ piece,
       piece ∈ Str.split 44%N raw_tags ∧ t = Str.strip piece ∧ t ≠ [])
    ∨ (∃ c, category = Some c ∧ c ≠ [] ∧ t = Str.strip c).
Proof.
  rewrite candidate_tags_category, elem_of_app.
  assert (H1 : t ∈ candidate_tags raw_tags None
               ↔ ∃ piece, piece ∈ Str.split 44%N raw_tags
                          ∧ t = Str.strip piece ∧ t ≠ []).
  { unfold candidate_tags. destruct raw_tags as [|x raw]; simpl Str.truthy.
    - cbn. split; [by intros ?%elem_of_nil|].
      intros (piece & Hp & -> & Hne).
      apply list_elem_of_singleton in Hp as ->. done.
    - cbv iota. rewrite list_elem_of_fmap. split.
      + intros (piece & -> & Hin).
        apply list_elem_of_filter in Hin as [Ht Hin].
        exists piece. split_and!; [done|done|].
        by destruct (Str.strip piece).
      + intros (piece & Hin & -> & Hne). exists piece. split; [done|].
        apply list_elem_of_filter. split; [|done].
        by destruct (Str.strip piece). }
  assert (H2 : t ∈ match category with
                   | Some c => if Str.truthy c then [Str.strip c] else []
                   | None => []
                   end
               ↔ ∃ c, category = Some c ∧ c ≠ [] ∧ t = Str.strip c).
  { destruct category as [[|x c]|]; simpl.
    - split; [by intros ?%elem_of_nil|]. by intros (c & [= <-] & ? & _).
    - rewrite list_elem_of_singleton. split.
      + intros ->. by exists (x :: c).
      + by intros (c' & [= <-] & _ & ->).
    - split; [by intros ?%elem_of_nil|]. by intros (c & ? & _). }
  by rewrite H1, H2.
Qed.

(** X1. The list returned by [parse_tags] never holds the same tag
    twice, whatever the raw tags and the category are. *)
Theorem parse_tags_unique raw_tags category :
  NoDup (parse_tags raw_tags category).
Proof.
  rewrite parse_tags_first_occurrences. apply first_occurrences_NoDup.
Qed.

(** X2. The tags returned are exactly the non-empty trimmed pieces of
    the raw tags between commas, and the trimmed category when the
    category is not the empty string: no piece is lost and no tag is
    made up. *)
Theorem parse_tags_elements raw_tags category t :
  t ∈ parse_tags raw_tags category
  ↔ (∃ piece,
       piece ∈ Str.split 44%N raw_tags ∧ t = Str.strip piece ∧ t ≠ [])
    ∨ (∃ c, category = Some c ∧ c ≠ [] ∧ t = Str.strip c).
Proof.
  rewrite parse_tags_first_occurrences, first_occurrences_elem.
  apply candidate_tags_elem.
Qed.

(** X3. The empty string is among the returned tags exactly when the
    category is a non-empty string made of white space only. *)
Theorem parse_tags_empty_tag_iff raw_tags category :
  [] ∈ parse_tags raw_tags category
  ↔ ∃ c, category = Some c ∧ c ≠ [] ∧ Str.strip c = [].
Proof.
  rewrite parse_tags_first_occurrences, first_occurrences_elem.
  rewrite candidate_tags_elem. split.
  - intros [(piece & _ & _ & Hne) | (c & Hc & Hne & Hs)]; [done|].
    by exists c.
  - intros (c & Hc & Hne & Hs). right. by exists c.
Qed.

(** X4. Every returned tag is trimmed: trimming it again changes
    nothing, and neither its first nor its last character is white
    space. *)
Theorem parse_tags_trimmed raw_tags category :
  Forall (λ t, Str.strip t = t
               ∧ (∀ c, head t = Some c → Str.isspace c = false)
               ∧ (∀ c, last t = Some c → Str.isspace c = false))
         (parse_tags raw_tags category).
Proof.
  apply Forall_forall. intros t Ht.
  rewrite parse_tags_first_occurrences, first_occurrences_elem in Ht.
  apply candidate_tags_elem in Ht.
  assert (∃ s, t = Str.strip s) as [s ->].
  { destruct Ht as [(piece & _ & -> & _) | (c & _ & _ & ->)]; eauto. }
  split_and!; [apply strip_idemp|apply strip_head|apply strip_last].
Qed.

(** X5. A returned tag that holds a comma is the trimmed category: the
    raw tags are cut at every comma, the category is never cut. *)
Theorem parse_tags_comma_from_category raw_tags category t :
  t ∈ parse_tags raw_tags category → 44%N ∈ t →
  ∃ c, category = Some c ∧ t = Str.strip c.
Proof.
  intros Ht Hcomma.
  rewrite parse_tags_first_occurrences, first_occurrences_elem in Ht.
  apply candidate_tags_elem in Ht.
  destruct Ht as [(piece & Hin & -> & _) | (c & Hc & _ & ->)].
  - apply strip_elem in Hcomma.
    pose proof (split_no_sep 44%N raw_tags) as Hno.
    rewrite Forall_forall in Hno. by apply Hno in Hin.
  - by exists c.
Qed.

(** X6. The category comes after the tags: the result is the result
    for the raw tags alone, followed by the trimmed category when the
    category is not empty and its trimmed form is not already there. *)
Theorem parse_tags_category_last raw_tags category :
  parse_tags raw_tags category
  = parse_tags raw_tags None
      ++ match category with
         | Some c =>
             if Str.truthy c
                && bool_decide (Str.strip c ∉ parse_tags raw_tags None)
             then [Str.strip c] else []
         | None => []
         end.
Proof.
  rewrite !parse_tags_first_occurrences, candidate_tags_category.
  destruct category as [c|]; [|by rewrite !app_nil_r].
  destruct (Str.truthy c); simpl; [|by rewrite !app_nil_r].
  rewrite first_occurrences_snoc. f_equal.
  case_decide as Hin.
  - rewrite bool_decide_eq_false_2; [done|].
    rewrite first_occurrences_elem. auto.
  - rewrite bool_decide_eq_true_2; [done|].
    by rewrite first_occurrences_elem.
Qed.

Lemma parse_tags_comma_from_category_witness :
  let raw_tags := Str.lit " up ,arrow,, up" in
  let category := Some (Str.lit " arrows, signs ") in
  parse_tags raw_tags category
  = [Str.lit "up"; Str.lit "arrow"; Str.lit "arrows, signs"]
  ∧ ∃ c, category = Some c ∧ Str.lit "arrows, signs" = Str.strip c.
Proof.
  cbv zeta. split; [vm_compute; reflexivity|].
  apply (parse_tags_comma_from_category (Str.lit " up ,arrow,, up")).
  - vm_compute. apply list_elem_of_In. simpl. tauto.
  - vm_compute. apply list_elem_of_In. simpl. tauto.
Defined.

(** ** More on [insert_icons_to_supabase] *)

Section PublisherFacts.

Implicit Types (supabase : Client) (rows : list row) (out : list event).
Implicit Types (crs : list (list row * result response)).

Lemma report_head res : head (report res) = Some 32%N.
Proof. unfold report. by destruct (truth (getattr_error res)). Qed.

Lemma events_from_no_rows_line k crs : Print msg_no_rows ∉ events_from k crs.
Proof.
  revert k. induction crs as [|[c r] crs IH]; intros k;
    [apply not_elem_of_nil|].
  cbn [events_from]. unfold chunk_events. cbn [fst snd]. intros Hin.
  rewrite !elem_of_app in Hin.
  destruct Hin as [[Hin|Hin]|Hin]; [| |by apply IH in Hin].
  - apply elem_of_cons in Hin as [H|Hin]; [discriminate|].
    apply list_elem_of_singleton in Hin. discriminate.
  - destruct r as [e|res]; [by apply elem_of_nil in Hin|].
    apply list_elem_of_singleton in Hin. injection Hin as H.
    apply (f_equal head) in H. by rewrite (report_head res) in H.
Qed.

Lemma events_from_tables k crs :
  Forall (λ e, match e with
               | Insert table _ _ => table = SUPABASE_TABLE
               | _ => True
               end) (events_from k crs).
Proof.
  revert k. induction crs as [|[c r] crs IH]; intros k; [constructor|].
  cbn [events_from]. unfold chunk_events. cbn [fst snd].
  rewrite !Forall_app.
  split_and!; [by repeat constructor| |apply IH].
  destruct r; by repeat constructor.
Qed.

(** X7. The publisher makes at most one insert call per block of 100
    rows, that is at most [ceil(n / 100)] calls for [n] rows, and
    exactly that many when no call raises; every call is on the table
    [icon_vectors]; and when no call raises the trace has three events
    per call (or the single line of the empty case). *)
Theorem publisher_call_count supabase rows :
  let run := insert_icons_to_supabase supabase rows in
  length (transcript run.2) ≤ (length rows + 100 - 1) / 100
  ∧ (run.1.2 = None →
     length (transcript run.2) = (length rows + 100 - 1) / 100
     ∧ length run.2
       = (if decide (rows = []) then 1
          else 3 * ((length rows + 100 - 1) / 100)))
  ∧ Forall (λ e, match e with
                 | Insert table _ _ => table = SUPABASE_TABLE
                 | _ => True
                 end) run.2.
Proof.
  cbv zeta. rewrite transcript_insert.
  pose proof (calls_length supabase (chunks 100 rows)) as Hle.
  rewrite chunks_length in Hle by lia. split_and!; [done| |].
  - intros Hnone. rewrite insert_raised in Hnone.
    pose proof (calls_complete _ _ Hnone) as Hlen.
    rewrite chunks_length in Hlen by lia. split; [done|].
    case_decide as Hrows; [by subst rows|].
    rewrite insert_trace_events by done.
    rewrite events_from_returned_length, Hlen; [done|].
    apply Forall_forall. intros [c r] Hin.
    apply list_elem_of_lookup in Hin as [j Hj]. destruct r as [e|res].
    + apply calls_raise_last in Hj as [_ Hraise]. congruence.
    + by exists res.
  - destruct (decide (rows = [])) as [->|Hne]; [by repeat constructor|].
    rewrite insert_trace_events by done. apply events_from_tables.
Qed.

(** X8. The publisher makes no insert call exactly when it is given no
    row, and that is also the only case in which it prints the line
    that says there is nothing to insert. *)
Theorem publisher_idle_iff_empty supabase rows :
  let out := (insert_icons_to_supabase supabase rows).2 in
  (transcript out = [] ↔ rows = [])
  ∧ (Print msg_no_rows ∈ out ↔ rows = []).
Proof.
  cbv zeta. split.
  - split; [|by intros ->]. intros H.
    destruct rows as [|r rows']; [done|]. exfalso.
    apply (f_equal length) in H. rewrite transcript_insert in H.
    pose proof (chunk_count_bounds (length (r :: rows'))) as [_ Hlb].
    destruct (chunks 100 (r :: rows')) as [|c0 cs0] eqn:Hcs.
    + apply (f_equal length) in Hcs. rewrite chunks_length in Hcs by lia.
      cbn [length] in Hcs, Hlb. lia.
    + pose proof (calls_nonempty supabase c0 cs0) as Hn.
      rewrite H in Hn. cbn [length] in Hn. lia.
  - split.
    + intros H. destruct (decide (rows = [])) as [|Hne]; [done|].
      rewrite insert_trace_events in H by done.
      by apply events_from_no_rows_line in H.
    + intros ->. apply list_elem_of_singleton. done.
Qed.

(** X9. Before each insert call, whether it returns or raises, the
    publisher prints a line with the number of rows of the chunk and
    the number of the chunk counted from 1; the chunk numbered [k + 1]
    is [rows[100k : 100k + 100]] and holds [min 100 (n - 100k)] rows. *)
Theorem publisher_announces_chunk supabase rows k chunk r :
  let out := (insert_icons_to_supabase supabase rows).2 in
  transcript out !! k = Some (chunk, r) →
  out !! (3 * k) = Some (Print (msg_inserting (length chunk) (k + 1)))
  ∧ chunk = take 100 (drop (k * 100) rows)
  ∧ length chunk = Nat.min 100 (length rows - k * 100).
Proof.
  cbv zeta. intros Hk.
  destruct (insert_trace_lookup _ _ _ _ Hk) as (Hann & _ & _).
  cbn [fst snd] in Hann. split; [exact Hann|].
  destruct (transcript_lookup_chunk _ _ _ _ Hk) as [_ Hc].
  cbn [fst] in Hc. rewrite Hc. split; [done|].
  rewrite length_take, length_drop. lia.
Qed.

End PublisherFacts.

Lemma publisher_announces_chunk_witness :
  let rows := Fixture.sample_rows 250 in
  let out := (insert_icons_to_supabase Fixture.always_ok rows).2 in
  transcript out !! 2 = Some (take 100 (drop 200 rows), inr Fixture.ok)
  ∧ out !! 6 = Some (Print (msg_inserting 50 3)).
Proof.
  cbv zeta.
  assert (H : transcript
                (insert_icons_to_supabase Fixture.always_ok
                   (Fixture.sample_rows 250)).2 !! 2
              = Some (take 100 (drop 200 (Fixture.sample_rows 250)),
                      inr Fixture.ok))
    by (vm_compute; reflexivity).
  split; [exact H|].
  destruct (publisher_announces_chunk Fixture.always_ok
              (Fixture.sample_rows 250) 2 _ _ H) as (Hann & _ & _).
  exact Hann.
Defined.

(** ** More on the loop of [main] *)

Section CatalogFacts.

Context (path_exists : str → bool) (uuid4 : nat → N).
Implicit Types (st : loop_state) (icon : entry) (icons : list entry).

Local Abbreviation body := (loop_body path_exists uuid4).
Local Abbreviation build := (build_rows path_exists uuid4).

(** The name and the tags of the row of an entry, if it gets one. *)
Local Abbreviation name_and_tags :=
  (λ icon : entry,
     name ← accepted_name path_exists icon;
     Some (name,
           parse_tags (default (Str.lit "") (icon !! "tags"))
                      (icon !! "category"))).

Lemma nameless_not_accepted icon :
  name_missing icon →
  accepted_name path_exists icon = None
  ∧ missing_line path_exists icon = None.
Proof.
  unfold accepted_name, missing_line. by intros [H|H]; rewrite H.
Qed.

Lemma absent_not_accepted icon name :
  icon !! "name" = Some name → name ≠ [] →
  path_exists (local_path_of name) = false →
  accepted_name path_exists icon = None
  ∧ missing_line path_exists icon
    = Some (msg_file_not_found name (local_path_of name)).
Proof.
  intros Hname Hne Hpath. unfold accepted_name, missing_line.
  rewrite Hname. simpl. rewrite Hpath. by destruct name.
Qed.

Lemma present_accepted icon name :
  icon !! "name" = Some name → name ≠ [] →
  path_exists (local_path_of name) = true →
  accepted_name path_exists icon = Some name
  ∧ missing_line path_exists icon = None.
Proof.
  intros Hname Hne Hpath. unfold accepted_name, missing_line.
  rewrite Hname. simpl. rewrite Hpath. by destruct name.
Qed.

Lemma loop_outcome icons st :
  (λ r, (Row.icon_name r, Row.tags r))
    <$> rows_to_insert (foldl body st icons)
  = ((λ r, (Row.icon_name r, Row.tags r)) <$> rows_to_insert st)
      ++ omap name_and_tags icons
  ∧ printed (foldl body st icons)
    = printed st ++ omap (missing_line path_exists) icons
  ∧ drawn (foldl body st icons)
    = drawn st + length (omap (accepted_name path_exists) icons).
Proof.
  revert st. induction icons as [|icon icons IH]; intros st.
  - simpl. by rewrite !app_nil_r, Nat.add_0_r.
  - cbn [foldl omap list_omap]. destruct (IH (body st icon)) as (Hr & Hp & Hd).
    rewrite Hr, Hp, Hd. clear Hr Hp Hd.
    destruct (loop_body_cases path_exists uuid4 st icon)
      as [[Hm Heq] | [(name & H1 & H2 & H3) | (name & H1 & H2 & H3)]].
    + destruct (nameless_not_accepted icon Hm) as [Ha Hl].
      by rewrite Heq, Ha, Hl.
    + destruct (absent_not_accepted icon name H1 H2 H3) as [Ha Hl].
      rewrite (loop_body_absent _ _ st icon name) by done.
      rewrite Ha, Hl. cbn. by rewrite <- !app_assoc.
    + destruct (present_accepted icon name H1 H2 H3) as [Ha Hl].
      rewrite (loop_body_present _ _ st icon name) by done.
      rewrite Ha, Hl. cbn. rewrite fmap_app, <- !app_assoc.
      split_and!; [done|done|lia].
Qed.

(** X10. The loop builds one row for each entry that has a non-empty
    name whose file exists, in the order of the catalog; the row
    carries that name and the tags [parse_tags] returns for the entry's
    [tags] and [category]. Entries with the same name each get a row. *)
Theorem build_rows_names_and_tags icons :
  (λ r, (Row.icon_name r, Row.tags r))
    <$> rows_to_insert (build_rows path_exists uuid4 icons)
  = omap name_and_tags icons.
Proof.
  destruct (loop_outcome icons loop_init) as (Hr & _ & _). exact Hr.
Qed.

(** X11. The lines printed by the loop are the file-not-found lines of
    the entries that have a non-empty name whose file does not exist,
    one per such entry, in the order of the catalog, and nothing
    else. *)
Theorem build_rows_printed icons :
  printed (build_rows path_exists uuid4 icons)
  = omap (missing_line path_exists) icons.
Proof.
  destruct (loop_outcome icons loop_init) as (_ & Hp & _). exact Hp.
Qed.

(** X12. Every entry of the catalog ends in exactly one of three ways:
    it gets a row, it gets a file-not-found line, or it has no usable
    name; an identifier is drawn for the entries that get a row and
    for no other. *)
Theorem build_rows_accounting icons :
  length (rows_to_insert (build_rows path_exists uuid4 icons))
  + length (printed (build_rows path_exists uuid4 icons))
  + length (filter (λ icon, icon !! "name" = None
                            ∨ icon !! "name" = Some []) icons)
  = length icons
  ∧ drawn (build_rows path_exists uuid4 icons)
    = length (rows_to_insert (build_rows path_exists uuid4 icons)).
Proof.
  destruct (loop_outcome icons loop_init) as (Hr & Hp & Hd).
  fold (build icons) in Hr, Hp, Hd. simpl in Hr, Hp, Hd.
  apply (f_equal length) in Hr. rewrite length_fmap in Hr.
  rewrite Hr, Hp, Hd. split.
  - clear Hr Hp Hd. induction icons as [|icon icons IH]; [done|].
    rewrite filter_cons. cbn [omap list_omap length].
    destruct (loop_body_cases path_exists uuid4 loop_init icon)
      as [[Hm _] | [(name & H1 & H2 & H3) | (name & H1 & H2 & H3)]].
    + destruct (nameless_not_accepted icon Hm) as [Ha Hl].
      rewrite Ha, Hl, decide_True by exact Hm. simpl. lia.
    + destruct (absent_not_accepted icon name H1 H2 H3) as [Ha Hl].
      rewrite Ha, Hl, decide_False by (rewrite H1; intros [?|[= ?]]; done).
      simpl. lia.
    + destruct (present_accepted icon name H1 H2 H3) as [Ha Hl].
      rewrite Ha, Hl, decide_False by (rewrite H1; intros [?|[= ?]]; done).
      simpl. lia.
  - clear. induction icons as [|icon icons IH]; [done|].
    cbn [omap list_omap]. destruct (accepted_name path_exists icon); simpl;
      by rewrite IH.
Qed.

Lemma loop_rows_exist icons st :
  let good r :=
    Row.icon_name r ≠ []
    ∧ path_exists (path_join OUTPUT_DIR (Row.file r)) = true
    ∧ NoDup (Row.tags r) in
  Forall good (rows_to_insert st) →
  Forall good (rows_to_insert (foldl body st icons)).
Proof.
  cbv zeta. revert st. induction icons as [|icon icons IH]; intros st Hst.
  - done.
  - cbn [foldl]. apply IH.
    destruct (loop_body_cases path_exists uuid4 st icon)
      as [[_ Heq] | [(name & H1 & H2 & H3) | (name & H1 & H2 & H3)]].
    + by rewrite Heq.
    + by rewrite (loop_body_absent _ _ st icon name).
    + rewrite (loop_body_present _ _ st icon name) by done. simpl.
      apply Forall_app. split; [done|]. apply Forall_singleton. simpl.
      split_and!; [done|exact H3|].
      rewrite parse_tags_first_occurrences. apply first_occurrences_NoDup.
Qed.

(** X13. Every row built has a non-empty name, names in [file] a file
    that exists under the directory [icons] (as [os.path.join] and
    [os.path.exists] see it), and has no duplicate in its tags. *)
Theorem build_rows_files_exist icons :
  Forall (λ r, Row.icon_name r ≠ []
               ∧ path_exists (path_join OUTPUT_DIR (Row.file r)) = true
               ∧ NoDup (Row.tags r))
         (rows_to_insert (build_rows path_exists uuid4 icons)).
Proof. apply (loop_rows_exist icons loop_init). constructor. Qed.

(** X14. An entry without the key [tags] is handled as one whose tags
    are the empty string, and an entry without the key [category] as
    one whose category is the empty string. *)
Theorem missing_keys_as_empty st icon :
  (icon !! "tags" = None →
   body st (<["tags" := Str.lit ""]> icon) = body st icon)
  ∧ (icon !! "category" = None →
     body st (<["category" := Str.lit ""]> icon) = body st icon).
Proof.
  split; intros Hnone; unfold loop_body.
  - rewrite lookup_insert_eq.
    rewrite !lookup_insert_ne by done. by rewrite Hnone.
  - rewrite lookup_insert_eq.
    rewrite !lookup_insert_ne by done. rewrite Hnone.
    destruct (icon !! "name") as [name|]; [|done].
    destruct (negb (Str.truthy name)); [done|].
    destruct (negb (path_exists _)); [done|].
    do 2 f_equal.
Qed.

End CatalogFacts.

(** ** File names and paths *)

(** X15. Different names give different file names: the file name
    determines the name. *)
Theorem file_name_of_inj name1 name2 :
  file_name_of name1 = file_name_of name2 ↔ name1 = name2.
Proof.
  split; [|by intros ->]. unfold file_name_of. intros H.
  by apply app_inv_tail in H.
Qed.

(** X16. The path checked for a name is [icons/<name>-stroke-rounded.svg],
    except when the name starts with a slash: [os.path.join] then drops
    the directory and the path is [<name>-stroke-rounded.svg] itself. *)
Theorem local_path_of_form name :
  (head name ≠ Some 47%N →
   local_path_of name
   = Str.lit "icons/" ++ name ++ Str.lit "-stroke-rounded.svg")
  ∧ (head name = Some 47%N →
     local_path_of name = name ++ Str.lit "-stroke-rounded.svg").
Proof.
  unfold local_path_of, file_name_of. split.
  - destruct name as [|c name]; [reflexivity|]. intros Hc.
    assert (c ≠ 47%N) as Hne by (intros ->; by apply Hc).
    clear Hc. unfold path_join. cbn [app].
    destruct c as [|p]; [reflexivity|].
    repeat (destruct p as [p|p|]; try reflexivity).
    done.
  - destruct name as [|c name]; [done|]. intros [= ->]. reflexivity.
Qed.

(** ** The whole run, continued *)

Lemma lines_app out1 out2 : lines (out1 ++ out2) = lines out1 ++ lines out2.
Proof. apply omap_app. Qed.

Lemma lines_prints ls : lines (Print <$> ls) = ls.
Proof.
  induction ls as [|l ls IH]; [done|].
  change (lines (Print <$> l :: ls)) with (l :: lines (Print <$> ls)).
  by rewrite IH.
Qed.

Lemma catalog_fetches_app out1 out2 :
  catalog_fetches (out1 ++ out2) = catalog_fetches out1 ++ catalog_fetches out2.
Proof. apply omap_app. Qed.

Lemma catalog_fetches_prints ls : catalog_fetches (Print <$> ls) = [].
Proof. induction ls as [|l ls IH]; [done|exact IH]. Qed.

Lemma catalog_fetches_events_from k crs :
  catalog_fetches (events_from k crs) = [].
Proof.
  revert k. induction crs as [|[c r] crs IH]; intros k; [done|].
  cbn [events_from]. unfold chunk_events. cbn [fst snd].
  rewrite !catalog_fetches_app, IH. by destruct r.
Qed.

Lemma catalog_fetches_insert supabase rows :
  catalog_fetches (insert_icons_to_supabase supabase rows).2 = [].
Proof.
  destruct (decide (rows = [])) as [->|Hne]; [done|].
  rewrite insert_trace_events by done. apply catalog_fetches_events_from.
Qed.




(** What a run without an exception has gone through. *)
Lemma main_success w :
  (main w).2 = None →
  ∃ supabase f,
    client_created w supabase ∧ path_exists w OUTPUT_DIR = true
    ∧ http_get w HUGEICONS_API_URL 30 = JsonObject f ∧ f ≠ IconsNull
    ∧ (insert_icons_to_supabase supabase
         (rows_to_insert
            (build_rows (path_exists w) (uuid4 w) (icons_of f)))).1.2
      = None.
Proof.
  intros Hmain.
  destruct (get_supabase_client w) as [e|supabase] eqn:Hclient.
  { unfold main in Hmain. by rewrite Hclient in Hmain. }
  apply client_of_get in Hclient as Hcreated.
  destruct (path_exists w OUTPUT_DIR) eqn:Hdir.
  2:{ unfold main, ensure_output_dir in Hmain.
      by rewrite Hclient, Hdir in Hmain. }
  destruct (http_get w HUGEICONS_API_URL 30) as [|f] eqn:Hget.
  { unfold main, ensure_output_dir, fetch_icon_list in Hmain.
    by rewrite Hclient, Hdir, Hget in Hmain. }
  assert (f = IconsNull ∨ f ≠ IconsNull) as [->|Hf]
    by (destruct f; [by right|by left|by right]).
  { unfold main, ensure_output_dir, fetch_icon_list in Hmain.
    by rewrite Hclient, Hdir, Hget in Hmain. }
  exists supabase, f. split_and!; [done..|].
  by rewrite (main_returns w supabase f) in Hmain.
Qed.

(** X17. When [SUPABASE_URL] or [SUPABASE_KEY] is unset or empty, [main]
    ends at once with the [RuntimeError] of the credentials: nothing is
    printed, no HTTP request is made and nothing is inserted. *)
Theorem main_needs_credentials w :
  ¬ credentials_set w →
  main w = ([], Some (RuntimeError msg_credentials)).
Proof.
  intros Hno. unfold main. by rewrite no_client_without_credentials.
Qed.

(** X18. When [create_client] has returned a client for the credentials
    and the directory [icons] does not exist, [main] ends with the
    [RuntimeError] that names the directory, before the catalog is
    fetched: the trace is empty. *)
Theorem main_needs_directory w supabase :
  client_created w supabase → path_exists w OUTPUT_DIR = false →
  main w = ([], Some (RuntimeError msg_no_output_dir)).
Proof.
  intros Hclient Hdir. unfold main.
  rewrite (client_of_credentials w supabase Hclient).
  unfold ensure_output_dir. by rewrite Hdir.
Qed.

(** X19. When the client has been created and the directory is there,
    and the request for the catalog fails, [main] ends with that
    exception after the line that announces the fetch and the one call
    of [requests.get]: no row is built and nothing is inserted. *)
Theorem main_fetch_failure w supabase :
  client_created w supabase → path_exists w OUTPUT_DIR = true →
  http_get w HUGEICONS_API_URL 30 = RequestFailed →
  main w
  = ([Print msg_fetching; HttpGet HUGEICONS_API_URL 30],
     Some RequestException).
Proof.
  intros Hclient Hdir Hget. unfold main.
  rewrite (client_of_credentials w supabase Hclient).
  unfold ensure_output_dir, fetch_icon_list. by rewrite Hdir, Hget.
Qed.


(** X22. In a run of [main] that returns, the rows submitted to the
    store are exactly the rows built by the loop from the fetched
    catalog, each once and in order, in blocks of 100, every insert
    call returned a response, and [requests.get] was called exactly
    once, on the catalog URL with a timeout of 30 seconds. *)
Theorem main_publishes_built_rows w :
  (main w).2 = None →
  ∃ f,
    http_get w HUGEICONS_API_URL 30 = JsonObject f ∧ f ≠ IconsNull
    ∧ submitted (main w).1
      = chunks 100
          (rows_to_insert
             (build_rows (path_exists w) (uuid4 w) (icons_of f)))
    ∧ concat (submitted (main w).1)
      = rows_to_insert
          (build_rows (path_exists w) (uuid4 w) (icons_of f))
    ∧ Forall returned (transcript (main w).1)
    ∧ catalog_fetches (main w).1 = [(HUGEICONS_API_URL, 30)].
Proof.
  intros Hmain.
  destruct (main_success w Hmain)
    as (supabase & f & Hclient & Hdir & Hget & Hf & Hnone).
  exists f. split; [done|]. split; [done|].
  pose proof (main_submits w supabase f Hclient Hdir Hget Hf) as Htr.
  unfold submitted. rewrite Htr.
  pose proof (submitted_chunks _ _ Hnone) as Hall. unfold submitted in Hall.
  rewrite Hall. split_and!; [done|apply chunks_concat; lia| |].
  - apply Forall_forall. intros [c r] Hin.
    apply list_elem_of_lookup in Hin as [j Hj]. destruct r as [e|res].
    + apply transcript_raise in Hj as [Hraise _]. congruence.
    + by exists res.
  - rewrite (main_returns w supabase f) by done. cbn [fst].
    rewrite !catalog_fetches_app, catalog_fetches_prints.
    rewrite catalog_fetches_insert.
    by destruct (insert_icons_to_supabase _ _).1.2.
Qed.

(** X23. When the client has been created, the directory exists, the
    request gives a catalog and no entry of it gets a row (the answer
    has no key [icons], the catalog is empty, or every entry lacks a
    name or a file), [main] makes no insert call: it prints the fetch
    lines, the file-not-found lines, a count of 0 prepared rows, the
    line of the empty insert and the last line, and returns. *)
Theorem main_nothing_to_publish w supabase f :
  client_created w supabase → path_exists w OUTPUT_DIR = true →
  http_get w HUGEICONS_API_URL 30 = JsonObject f → f ≠ IconsNull →
  omap (accepted_name (path_exists w)) (icons_of f) = [] →
  (main w).2 = None
  ∧ transcript (main w).1 = []
  ∧ lines (main w).1
    = [msg_fetching; msg_fetched (length (icons_of f))]
        ++ omap (missing_line (path_exists w)) (icons_of f)
        ++ [msg_prepared 0; msg_no_rows; msg_done].
Proof.
  intros Hclient Hdir Hget Hf Hnone.
  rewrite (main_returns w supabase f) by done. cbv zeta.
  destruct (loop_outcome (path_exists w) (uuid4 w) (icons_of f)
              loop_init) as (_ & Hp & Hd).
  destruct (loop_ids (path_exists w) (uuid4 w) (icons_of f)
              loop_init) as (_ & _ & Hids).
  fold (build_rows (path_exists w) (uuid4 w) (icons_of f))
    in Hp, Hd, Hids.
  rewrite Hnone in Hd. simpl in Hp, Hd, Hids. rewrite Hd in Hids.
  apply fmap_nil_inv in Hids. rewrite Hids, Hp. cbn [fst snd].
  split_and!; [done| |].
  - rewrite !transcript_app, transcript_prints. done.
  - rewrite !lines_app, lines_prints. done.
Qed.

(** X24. When the credentials are set and [create_client] raises,
    [main] ends at once with that exception, before the directory is
    checked and before anything is printed, fetched or inserted. *)
Theorem main_client_creation_fails w url key e :
  SUPABASE_URL w = Some url → url ≠ [] →
  SUPABASE_KEY w = Some key → key ≠ [] →
  create_client w url key = inl e →
  main w = ([], Some e).
Proof.
  intros Hurl Hu Hkey Hk Hc. unfold main, get_supabase_client.
  rewrite Hurl, Hkey. destruct url as [|c url]; [done|].
  destruct key as [|c' key]; [done|]. simpl. by rewrite Hc.
Qed.

(** X25. When the client has been created, the directory is there and
    the answer is a JSON object whose ["icons"] is [null], [main] ends
    with the [TypeError] of [len(None)] after the line that announces
    the fetch and the request: the count of fetched icons is not
    printed, no row is built and nothing is inserted. *)
Theorem main_null_icons w supabase :
  client_created w supabase → path_exists w OUTPUT_DIR = true →
  http_get w HUGEICONS_API_URL 30 = JsonObject IconsNull →
  main w
  = ([Print msg_fetching; HttpGet HUGEICONS_API_URL 30],
     Some (TypeError msg_len_none)).
Proof.
  intros Hclient Hdir Hget. unfold main.
  rewrite (client_of_credentials w supabase Hclient).
  unfold ensure_output_dir, fetch_icon_list. by rewrite Hdir, Hget.
Qed.

(** ** The further properties on the sample inputs *)

Lemma sample_client_created (w : World) :
  SUPABASE_URL w = Some (Str.lit "https://example.supabase.co") →
  SUPABASE_KEY w = Some (Str.lit "service-key") →
  create_client w (Str.lit "https://example.supabase.co")
    (Str.lit "service-key") = inr Fixture.always_ok →
  client_created w Fixture.always_ok.
Proof.
  intros Hurl Hkey Hc.
  exists (Str.lit "https://example.supabase.co"), (Str.lit "service-key").
  split_and!; [done|discriminate|done|discriminate|done].
Defined.

Lemma main_needs_credentials_witness :
  ¬ credentials_set Scenario.no_key
  ∧ main Scenario.no_key = ([], Some (RuntimeError msg_credentials)).
Proof.
  assert (H : ¬ credentials_set Scenario.no_key).
  { intros (url & key & _ & _ & Hkey & _). discriminate Hkey. }
  split; [exact H|]. exact (main_needs_credentials Scenario.no_key H).
Defined.

Lemma main_needs_directory_witness :
  client_created Scenario.no_directory Fixture.always_ok
  ∧ main Scenario.no_directory = ([], Some (RuntimeError msg_no_output_dir)).
Proof.
  assert (H : client_created Scenario.no_directory Fixture.always_ok)
    by (by apply sample_client_created).
  split; [exact H|].
  exact (main_needs_directory Scenario.no_directory _ H eq_refl).
Defined.

Lemma main_fetch_failure_witness :
  client_created Scenario.offline Fixture.always_ok
  ∧ catalog_fetches (main Scenario.offline).1 = [(HUGEICONS_API_URL, 30)]
  ∧ (main Scenario.offline).2 = Some RequestException.
Proof.
  assert (H : client_created Scenario.offline Fixture.always_ok)
    by (by apply sample_client_created).
  split; [exact H|].
  rewrite (main_fetch_failure Scenario.offline _ H);
    [split; reflexivity|vm_compute; reflexivity|reflexivity].
Defined.

Lemma main_publishes_built_rows_witness :
  let w := Fixture.world [Fixture.arrow_up; Fixture.missing_icon] in
  (main w).2 = None
  ∧ catalog_fetches (main w).1 = [(HUGEICONS_API_URL, 30)]
  ∧ length (concat (submitted (main w).1)) = 1.
Proof.
  cbv zeta.
  assert (H : (main (Fixture.world
                       [Fixture.arrow_up; Fixture.missing_icon])).2 = None)
    by (vm_compute; reflexivity).
  split; [exact H|].
  destruct (main_publishes_built_rows _ H)
    as (f & Hget & _ & _ & Hrows & _ & Hreq).
  split; [exact Hreq|]. rewrite Hrows.
  injection Hget as <-. vm_compute. reflexivity.
Defined.

Lemma main_nothing_to_publish_witness :
  client_created Scenario.no_icons_key Fixture.always_ok
  ∧ transcript (main Scenario.no_icons_key).1 = []
  ∧ lines (main Scenario.no_icons_key).1
    = [msg_fetching; msg_fetched 0; msg_prepared 0; msg_no_rows; msg_done].
Proof.
  assert (H : client_created Scenario.no_icons_key Fixture.always_ok)
    by (by apply sample_client_created).
  split; [exact H|].
  destruct (main_nothing_to_publish Scenario.no_icons_key _ IconsAbsent H)
    as (_ & Hnone & Hlines);
    [vm_compute; reflexivity|reflexivity|discriminate|reflexivity|].
  split; [exact Hnone|exact Hlines].
Defined.

Lemma main_client_creation_fails_witness :
  path_exists Scenario.bad_url OUTPUT_DIR = false
  ∧ main Scenario.bad_url = ([], Some Scenario.invalid_url).
Proof.
  split; [reflexivity|].
  apply (main_client_creation_fails Scenario.bad_url
           (Str.lit "not-a-url") (Str.lit "service-key"));
    [reflexivity|discriminate|reflexivity|discriminate|reflexivity].
Defined.

Lemma main_null_icons_witness :
  client_created Scenario.null_icons Fixture.always_ok
  ∧ lines (main Scenario.null_icons).1 = [msg_fetching]
  ∧ (main Scenario.null_icons).2 = Some (TypeError msg_len_none).
Proof.
  assert (H : client_created Scenario.null_icons Fixture.always_ok)
    by (by apply sample_client_created).
  split; [exact H|].
  rewrite (main_null_icons Scenario.null_icons _ H);
    [split; reflexivity|vm_compute; reflexivity|reflexivity].
Defined.

(** A run whose store raises on the first insert: the exception ends
    the run after the insert call, and the last line is not printed. *)
Example main_store_down :
  lines (main Scenario.store_down).1
  = [msg_fetching; msg_fetched 1; msg_prepared 1; msg_inserting 1 1]
  ∧ length (transcript (main Scenario.store_down).1) = 1
  ∧ (main Scenario.store_down).2 = Some Fixture.unreachable.
Proof. vm_compute. split_and!; reflexivity. Qed.
